(** * SkyEye GCI controller: a shallow embedding of selected Go sources

    The development follows the layout of the repository:

    - [Go]         the fragments of the Go runtime and standard library the
                   sources rely on (slices with length and capacity, panics,
                   [encoding/binary], [fmt.Sprintf] for the verbs in use);
    - [Audio]      [newVoicePacketFrom], the SimpleRadio voice packet decoder;
    - [Composer]   [ComposeAlphaCheckResponse],
                   [ComposeNegativeRadarContactResponse], [ComposeThreatCall];
    - [Controller] [Run], [broadcastSunrise], [findCallsign];
    - [Samples]    concrete inputs to run the above on.

    The properties follow, one module of facts for each of the above. *)

From Stdlib Require Import ZArith List Lia Bool.
From Stdlib Require Import Strings.Byte Strings.Ascii Strings.String.
From Stdlib Require DecimalString.
Import ListNotations.

Local Open Scope Z_scope.

(* ===================================================================== *)
(** * Go runtime and library fragments *)
(* ===================================================================== *)

Module Go.

(** A call either returns, panics, or is still running when the fuel given
    to the model is spent. *)
Inductive panic : Type :=
| SliceBoundsOutOfRange (high : Z) (capacity : nat)
| SliceBoundsInverted (low high : Z)
| IndexOutOfRange (index : Z) (length : nat).

Inductive outcome (A : Type) : Type :=
| Returned (a : A)
| Panicked (p : panic)
| OutOfFuel.

Arguments Returned {A} a.
Arguments Panicked {A} p.
Arguments OutOfFuel {A}.

Definition bind {A B : Type} (m : outcome A) (k : A -> outcome B) : outcome B :=
  match m with
  | Returned a => k a
  | Panicked p => Panicked p
  | OutOfFuel => OutOfFuel
  end.

Notation "x <- m ;; k" := (bind m (fun x => k))
  (at level 61, m at next level, right associativity).

(** ** Slices

    A Go slice is a window on a backing array: [elems] are the [len(s)]
    visible elements, [spare] the elements of the array between [len(s)] and
    [cap(s)].  An index expression is checked against the length, a slice
    expression against the capacity. *)
Record slice : Type := mkSlice { elems : list byte; spare : list byte }.

Definition len (s : slice) : nat := List.length (elems s).
Definition cap (s : slice) : nat := List.length (elems s) + List.length (spare s).
Definition backing (s : slice) : list byte := elems s ++ spare s.

(** The zero value of a slice type, and a slice covering a whole array. *)
Definition nilSlice : slice := {| elems := []; spare := [] |}.
Definition ofBytes (l : list byte) : slice := {| elems := l; spare := [] |}.

(** [s[i]]: the index is checked against the length. *)
Definition index (s : slice) (i : Z) : outcome byte :=
  if (0 <=? i) && (i <? Z.of_nat (len s)) then
    match nth_error (elems s) (Z.to_nat i) with
    | Some x => Returned x
    | None => Panicked (IndexOutOfRange i (len s))
    end
  else Panicked (IndexOutOfRange i (len s)).

(** The window [low, high) of the backing array, with what is left of the
    array behind it as spare capacity. *)
Definition window (s : slice) (low high : Z) : slice :=
  let tail := skipn (Z.to_nat low) (backing s) in
  let n := Z.to_nat (high - low) in
  {| elems := firstn n tail; spare := skipn n tail |}.

(** [s[low:high]]: the bounds are checked against the capacity. *)
Definition reslice (s : slice) (low high : Z) : outcome slice :=
  if negb ((0 <=? high) && (high <=? Z.of_nat (cap s))) then
    Panicked (SliceBoundsOutOfRange high (cap s))
  else if negb ((0 <=? low) && (low <=? high)) then
    Panicked (SliceBoundsInverted low high)
  else Returned (window s low high).

(** ** encoding/binary, big endian *)

Definition u8 (x : byte) : Z := Z.of_N (Byte.to_N x).

Definition wrap (bits : Z) (x : Z) : Z := x mod 2 ^ bits.

(** [uintN(b[i]) << shift], in a word of [bits] bits. *)
Definition shifted (bits : Z) (s : slice) (i : nat) (shift : Z) : Z :=
  wrap bits (Z.shiftl (u8 (nth i (elems s) x00)) shift).

(** [binary.BigEndian.Uint16]: the hint [_ = b[1]] panics on a short slice. *)
Definition Uint16 (b : slice) : outcome Z :=
  _ <- index b 1 ;;
  Returned (Z.lor (shifted 16 b 1 0) (shifted 16 b 0 8)).

Definition Uint32 (b : slice) : outcome Z :=
  _ <- index b 3 ;;
  Returned (Z.lor (Z.lor (Z.lor (shifted 32 b 3 0) (shifted 32 b 2 8))
                         (shifted 32 b 1 16)) (shifted 32 b 0 24)).

Definition Uint64 (b : slice) : outcome Z :=
  _ <- index b 7 ;;
  Returned
    (Z.lor (Z.lor (Z.lor (Z.lor (Z.lor (Z.lor (Z.lor
       (shifted 64 b 7 0) (shifted 64 b 6 8)) (shifted 64 b 5 16))
       (shifted 64 b 4 24)) (shifted 64 b 3 32)) (shifted 64 b 2 40))
       (shifted 64 b 1 48)) (shifted 64 b 0 56)).

(** ** fmt.Sprintf

    Strings are byte sequences.  The verbs modelled are [%s], [%d] and [%%],
    without flags, width or precision, on [string] and [int] operands: these
    are the ones the composer's templates use.  Any other verb character is
    reported the way [fmt] reports a verb that does not fit its operand. *)
Local Open Scope string_scope.

Inductive operand : Type :=
| Str (s : string)
| Int (n : Z).

Definition decimal (n : Z) : string :=
  DecimalString.NilZero.string_of_int (Z.to_int n).

(** [type=value], as printed for a bad verb and for extra operands. *)
Definition typed (x : operand) : string :=
  match x with
  | Str s => "string=" ++ s
  | Int n => "int=" ++ decimal n
  end.

Definition formatOperand (verb : ascii) (x : operand) : string :=
  match x with
  | Str s => if Ascii.eqb verb "s" then s
             else "%!" ++ String verb ("(" ++ typed x ++ ")")
  | Int n => if Ascii.eqb verb "d" then decimal n
             else "%!" ++ String verb ("(" ++ typed x ++ ")")
  end.

Definition extra (a : list operand) : string :=
  match a with
  | [] => ""
  | _ :: _ => "%!(EXTRA " ++ String.concat ", " (map typed a) ++ ")"
  end.

Fixpoint Sprintf (format : string) (a : list operand) : string :=
  match format with
  | EmptyString => extra a
  | String "%" EmptyString => "%!(NOVERB)" ++ extra a
  | String "%" (String verb rest) =>
      if Ascii.eqb verb "%" then String "%" (Sprintf rest a)
      else match a with
           | [] => "%!" ++ String verb ("(MISSING)" ++ Sprintf rest [])
           | x :: a' => formatOperand verb x ++ Sprintf rest a'
           end
  | String ch rest => String ch (Sprintf rest a)
  end.

(** Whether no string occurs twice in a list. *)
Fixpoint distinct (l : list string) : bool :=
  match l with
  | [] => true
  | x :: l' => negb (existsb (String.eqb x) l') && distinct l'
  end.

End Go.

(** zerolog events: a level, the fields added to the logger, a message. *)
Module Zerolog.

Inductive level : Type := DebugLevel | InfoLevel | ErrorLevel.

Record logEvent : Type := {
  logLevel : level;
  logFields : list (string * string);
  logMessage : string
}.

End Zerolog.

(* ===================================================================== *)
(** * The voice packet decoder (package audio) *)
(* ===================================================================== *)

Module Audio.
Import Go.

(** A [float64] is represented by its IEEE 754 bit pattern, so that
    [math.Float64frombits] is the identity on the representation. *)
Definition float64 : Type := Z.
Definition Float64frombits (bits : Z) : float64 := bits.

(** [srs.Frequency], as far as the decoder builds it. *)
Record srsFrequency : Type := {
  Frequency : float64;
  Modulation : byte;
  Encryption : byte
}.

Record VoicePacket : Type := {
  PacketLength : Z;
  AudioSegmentLength : Z;
  FrequenciesSegmentLength : Z;
  AudioLength : Z;
  AudioBytes : slice;
  Frequencies : list srsFrequency;
  UnitID : Z;
  PacketID : Z;
  RetransmissionCount : byte;
  OriginalGUID : slice;
  GUID : slice
}.

(** The composite literal of lines 51-55: three headers are decoded, every
    other field has its zero value. *)
Definition decodeHeaders (b : slice) : outcome VoicePacket :=
  b02 <- reslice b 0 2 ;; packetLength <- Uint16 b02 ;;
  b24 <- reslice b 2 4 ;; audioSegmentLength <- Uint16 b24 ;;
  b46 <- reslice b 4 6 ;; frequenciesSegmentLength <- Uint16 b46 ;;
  Returned {| PacketLength := packetLength;
              AudioSegmentLength := audioSegmentLength;
              FrequenciesSegmentLength := frequenciesSegmentLength;
              AudioLength := 0;
              AudioBytes := nilSlice;
              Frequencies := [];
              UnitID := 0;
              PacketID := 0;
              RetransmissionCount := x00;
              OriginalGUID := nilSlice;
              GUID := nilSlice |}.

Definition setAudio (p : VoicePacket) (audioLength : Z) (audioBytes : slice)
  : VoicePacket :=
  {| PacketLength := PacketLength p;
     AudioSegmentLength := AudioSegmentLength p;
     FrequenciesSegmentLength := FrequenciesSegmentLength p;
     AudioLength := audioLength;
     AudioBytes := audioBytes;
     Frequencies := Frequencies p;
     UnitID := UnitID p;
     PacketID := PacketID p;
     RetransmissionCount := RetransmissionCount p;
     OriginalGUID := OriginalGUID p;
     GUID := GUID p |}.

Definition appendFrequency (p : VoicePacket) (f : srsFrequency) : VoicePacket :=
  {| PacketLength := PacketLength p;
     AudioSegmentLength := AudioSegmentLength p;
     FrequenciesSegmentLength := FrequenciesSegmentLength p;
     AudioLength := AudioLength p;
     AudioBytes := AudioBytes p;
     Frequencies := Frequencies p ++ [f];
     UnitID := UnitID p;
     PacketID := PacketID p;
     RetransmissionCount := RetransmissionCount p;
     OriginalGUID := OriginalGUID p;
     GUID := GUID p |}.

(** The four offsets of lines 57-60, computed once, from the packet as it is
    at that point. *)
Record segmentOffsets : Type := {
  audioSegmentOffset : Z;
  audioBytesOffset : Z;
  frequenciesOffset : Z;
  fixedSegmentOffset : Z
}.

Definition computeOffsets (p : VoicePacket) : segmentOffsets :=
  let audioSegmentOffset := 6 in
  let audioBytesOffset := audioSegmentOffset + 2 in
  let frequenciesOffset := audioBytesOffset + AudioLength p in
  let fixedSegmentOffset := frequenciesOffset + FrequenciesSegmentLength p in
  {| audioSegmentOffset := audioSegmentOffset;
     audioBytesOffset := audioBytesOffset;
     frequenciesOffset := frequenciesOffset;
     fixedSegmentOffset := fixedSegmentOffset |}.

(** Lines 62-63. *)
Definition decodeAudioSegment (b : slice) (o : segmentOffsets) (p : VoicePacket)
  : outcome VoicePacket :=
  header <- reslice b (audioSegmentOffset o) (audioBytesOffset o) ;;
  audioLength <- Uint16 header ;;
  audioBytes <- reslice b (audioBytesOffset o) (frequenciesOffset o) ;;
  Returned (setAudio p audioLength audioBytes).

(** The body of the loop, lines 67-71: one frequency record read at [i]. *)
Definition readFrequency (b : slice) (i : Z) : outcome srsFrequency :=
  word <- reslice b i (i + 8) ;;
  bits <- Uint64 word ;;
  modulation <- index b (i + 8) ;;
  encryption <- index b (i + 9) ;;
  Returned {| Frequency := Float64frombits bits;
              Modulation := modulation;
              Encryption := encryption |}.

(** The entry condition of the loop of line 65. *)
Definition loopCondition (o : segmentOffsets) (i : Z) (p : VoicePacket) : bool :=
  i <=? frequenciesOffset o + FrequenciesSegmentLength p.

(** The loop of lines 65-74.  The [for] clause has no post statement and the
    body does not assign [i]: the next iteration runs at the same [i]. *)
Fixpoint frequenciesLoop (fuel : nat) (b : slice) (o : segmentOffsets)
  (i : Z) (p : VoicePacket) : outcome VoicePacket :=
  if loopCondition o i p then
    match fuel with
    | O => OutOfFuel
    | S fuel' =>
        frequency <- readFrequency b i ;;
        frequenciesLoop fuel' b o i (appendFrequency p frequency)
    end
  else Returned p.

(** Lines 76-86. *)
Definition decodeFixedSegment (b : slice) (o : segmentOffsets) (p : VoicePacket)
  : outcome VoicePacket :=
  let unitIDOffset := fixedSegmentOffset o in
  let packetIDOffset := unitIDOffset + 4 in
  let retrasmissionCountOffset := packetIDOffset + 8 in
  let originalGUIDOffset := retrasmissionCountOffset + 1 in
  let guidOffset := originalGUIDOffset + 22 in
  s1 <- reslice b unitIDOffset packetIDOffset ;; unitID <- Uint32 s1 ;;
  s2 <- reslice b packetIDOffset retrasmissionCountOffset ;; packetID <- Uint64 s2 ;;
  retransmissionCount <- index b retrasmissionCountOffset ;;
  originalGUID <- reslice b originalGUIDOffset guidOffset ;;
  guid <- reslice b guidOffset (guidOffset + 22) ;;
  Returned {| PacketLength := PacketLength p;
              AudioSegmentLength := AudioSegmentLength p;
              FrequenciesSegmentLength := FrequenciesSegmentLength p;
              AudioLength := AudioLength p;
              AudioBytes := AudioBytes p;
              Frequencies := Frequencies p;
              UnitID := unitID;
              PacketID := packetID;
              RetransmissionCount := retransmissionCount;
              OriginalGUID := originalGUID;
              GUID := guid |}.

(** Everything before the loop: the state in which the loop is entered. *)
Definition loopEntry (b : slice) : outcome (segmentOffsets * VoicePacket) :=
  p <- decodeHeaders b ;;
  let o := computeOffsets p in
  p <- decodeAudioSegment b o p ;;
  Returned (o, p).

Definition newVoicePacketFrom (fuel : nat) (b : slice) : outcome VoicePacket :=
  entry <- loopEntry b ;;
  let '(o, p) := entry in
  p <- frequenciesLoop fuel b o (frequenciesOffset o) p ;;
  decodeFixedSegment b o p.

(** The packet as [n] rounds of the loop of lines 65-74 leave it: a round
    tests the condition and, if it holds, reads a record at [i] and appends
    it; when the condition fails the packet stays as it is. *)
Fixpoint iterations (n : nat) (b : slice) (o : segmentOffsets)
  (i : Z) (p : VoicePacket) : outcome VoicePacket :=
  match n with
  | O => Returned p
  | S n' =>
      if loopCondition o i p then
        frequency <- readFrequency b i ;;
        iterations n' b o i (appendFrequency p frequency)
      else Returned p
  end.

(** The byte at offset [k] of the array behind a slice, as a number. *)
Definition byteAt (b : slice) (k : nat) : Z := u8 (nth k (backing b) x00).

(** The number that [count] bytes from offset [from] on spell, most
    significant byte first. *)
Definition bigEndian (b : slice) (from count : nat) : Z :=
  fold_left (fun acc k => 256 * acc + byteAt b (from + k)) (seq 0 count) 0.

End Audio.

(* ===================================================================== *)
(** * The brevity composer (package composer) *)
(* ===================================================================== *)

Module Composer.
Import Go Zerolog.
Local Open Scope string_scope.

Record NaturalLanguageResponse : Type := {
  Subtitle : string;
  Speech : string
}.

(** The composer: [callsign] is the GCI's own callsign. *)
Record composer : Type := {
  callsign : string
}.

(** Modelled from the spec: [applyToFirstCharacter] is a helper of package
    composer whose body is not among the sources; it is taken to apply [f] to
    the first byte of [s] and to leave the rest of [s] as it is, which is what
    the call [applyToFirstCharacter(group.Subtitle, strings.ToLower)] is used
    for (a subtitle whose first character only is lowercased). *)
Definition applyToFirstCharacter (s : string) (f : string -> string) : string :=
  match s with
  | EmptyString => EmptyString
  | String ch rest => f (String ch EmptyString) ++ rest
  end.

(** The table of [ComposeNegativeRadarContactResponse], lines 12-26. *)
Definition replies : list string := [
  "%s, negative radar contact. Double check your callsign.";
  "%s, negative radar contact. Check your callsign.";
  "%s, negative radar contact. Verify your callsign.";
  "%s, negative radar contact. Confirm your callsign.";
  "%s, negative radar contact. Send it again for me.";
  "%s, negative radar contact. I might have misheard your callsign.";
  "%s, negative radar contact. Is that the right callsign?";
  "%s, negative radar contact. Possible I misheard the callsign.";
  "%s, negative radar contact. No contact with that callsign on scope.";
  "%s, negative radar contact. Can't find that callsign on scope.";
  "%s, negative radar contact. I don't see that callsign on scope.";
  "%s, negative radar contact. I don't have that callsign on scope.";
  "%s, negative radar contact. I do not have that callsign on scope."
].

(** What the three functions use of the rest of the repository and of its
    libraries, none of it among the sources:
    - [bearings.Bearing], an interface, through [IsMagnetic] and [String];
    - [unit.Length], through [NauticalMiles], and the conversion [int(x)] of
      the [float64] it returns;
    - [brevity.Group], an interface, only passed on to [ComposeGroup];
    - [strings.ToLower]. *)
Class Library : Type := {
  Bearing : Type;
  IsMagnetic : Bearing -> bool;
  BearingString : Bearing -> string;
  Length : Type;
  float64 : Type;
  NauticalMiles : Length -> float64;
  int : float64 -> Z;
  Group : Type;
  ToLower : string -> string
}.

(** The composer's own [ComposeCallsigns], [ComposeGroup] and
    [PronounceBearing], not among the sources either. *)
Class Methods {L : Library} : Type := {
  ComposeCallsigns : composer -> list string -> string;
  ComposeGroup : composer -> Group -> NaturalLanguageResponse;
  PronounceBearing : Bearing -> string
}.

Section Compose.

Context {L : Library} {C : Methods}.

(** [brevity.Bullseye]: a bearing and a distance from the bullseye. *)
Record Bullseye : Type := {
  bearing : Bearing;
  distance : Length
}.

Record AlphaCheckResponse : Type := {
  AlphaCheck_Callsign : string;
  AlphaCheck_Status : bool;
  AlphaCheck_Location : Bullseye
}.

Record NegativeRadarContactResponse : Type := {
  NegativeRadarContact_Callsign : string
}.

Record ThreatCall : Type := {
  Threat_Callsigns : list string;
  Threat_Group : Group
}.

(** [ComposeAlphaCheckResponse], with the events it logs. *)
Definition ComposeAlphaCheckResponse (c : composer) (response : AlphaCheckResponse)
  : list logEvent * NaturalLanguageResponse :=
  if AlphaCheck_Status response then
    let location := AlphaCheck_Location response in
    let log :=
      if negb (IsMagnetic (bearing location)) then
        [ {| logLevel := ErrorLevel;
             logFields := [("bearing", BearingString (bearing location))];
             logMessage :=
               "bearing provided to ComposeAlphaCheckResponse should be magnetic" |} ]
      else [] in
    (log,
     {| Subtitle :=
          Sprintf "%s, %s, contact, alpha check bullseye %s/%d"
            [ Str (ComposeCallsigns c [AlphaCheck_Callsign response]);
              Str (ComposeCallsigns c [callsign c]);
              Str (BearingString (bearing location));
              Int (int (NauticalMiles (distance location))) ];
        Speech :=
          Sprintf "%s, %s, contact, alpha check bullseye %s, %d"
            [ Str (ComposeCallsigns c [AlphaCheck_Callsign response]);
              Str (ComposeCallsigns c [callsign c]);
              Str (PronounceBearing (bearing location));
              Int (int (NauticalMiles (distance location))) ] |})
  else
    let reply := AlphaCheck_Callsign response ++ ", negative contact" in
    ([], {| Subtitle := reply; Speech := reply |}).

(** [ComposeNegativeRadarContactResponse].  [draw] is the number that
    [rand.IntN(len(replies))] returns in this call; indexing [replies] with it
    is checked like any index expression. *)
Definition ComposeNegativeRadarContactResponse (c : composer) (draw : nat)
  (response : NegativeRadarContactResponse) : outcome NaturalLanguageResponse :=
  match nth_error replies draw with
  | Some template =>
      let reply :=
        Sprintf template
          [Str (ComposeCallsigns c [NegativeRadarContact_Callsign response])] in
      Returned {| Subtitle := reply; Speech := reply |}
  | None => Panicked (IndexOutOfRange (Z.of_nat draw) (List.length replies))
  end.

(** [ComposeThreatCall]. *)
Definition ComposeThreatCall (c : composer) (call : ThreatCall)
  : NaturalLanguageResponse :=
  let group := ComposeGroup c (Threat_Group call) in
  let callsignList := ComposeCallsigns c (Threat_Callsigns call) in
  {| Subtitle :=
       Sprintf "%s, %s"
         [Str callsignList; Str (applyToFirstCharacter (Subtitle group) ToLower)];
     Speech := Sprintf "%s, %s" [Str callsignList; Str (Speech group)] |}.

End Compose.

End Composer.

(* ===================================================================== *)
(** * The controller (package controller) *)
(* ===================================================================== *)

Module Controller.
Import Zerolog.
Local Open Scope string_scope.

(** [time.Time] and [time.Duration]: instants and spans in nanoseconds. *)
Definition Time : Type := Z.
Definition Duration : Type := Z.
Definition Second : Duration := 1000000000.

(** [t.After(u)] *)
Definition After (t u : Time) : bool := (u <? t)%Z.

(** [context.Context]: the context [Run] is driven by, and the contexts
    [traces.WithTraceID] derives from it. *)
Inductive context : Type :=
| Background
| WithTraceID (parent : context) (traceID : string).

(** What a callback slot of the scope can hold: one of the two methods that
    [Run] registers, or a function registered by other code. *)
Inductive callback : Type :=
| handleFaded
| handleRemoved
| registeredElsewhere (name : string).

(** The three broadcasts of a tick. *)
Inductive surveillance : Type :=
| Merges
| Threats
| Picture.

Definition surveillance_eqb (a b : surveillance) : bool :=
  match a, b with
  | Merges, Merges | Threats, Threats | Picture, Picture => true
  | _, _ => false
  end.

(** What [select] receives in one iteration of the loop of [Run]: the
    cancellation of the context, or a tick; [now] is what [time.Now()]
    reads in that iteration. *)
Inductive event : Type :=
| Done
| Tick (now : Time).

(** How far a call of [Run] has got when the events are used up. *)
Inductive status : Type :=
| Exited
| Selecting.

(** Types and functions of the repository and its libraries that are not
    among the sources:
    - [coalitions.Coalition], [trackfiles.Trackfile] with its method
      [IsLastKnownPointZero], [unit.Frequency];
    - [simpleradio.RadioFrequency] with its field [Frequency];
    - the trackers of [threatCooldowns] and [merges];
    - the values other than [brevity.SunriseCall] that are sent as calls;
    - [shortuuid.New], through the sequence of identifiers it returns;
    - the channel type, through the identity of a channel. *)
Class Externals : Type := {
  Coalition : Type;
  Trackfile : Type;
  IsLastKnownPointZero : Trackfile -> bool;
  unitFrequency : Type;
  RadioFrequency : Type;
  Frequency : RadioFrequency -> unitFrequency;
  cooldownTracker : Type;
  mergeTracker : Type;
  brevityCall : Type;
  shortuuid : nat -> string;
  chan : Type
}.

Section Control.

Context {L : Externals}.

(** The [any] of a [Call]. *)
Inductive any : Type :=
| SunriseCall (Frequencies : list unitFrequency)
| Brevity (call : brevityCall).

Record Call : Type := {
  Context : context;
  Call_ : any
}.

Definition NewCall (ctx : context) (call : any) : Call :=
  {| Context := ctx; Call_ := call |}.

(** [radar.Radar], as the controller uses it here: the lookup by callsign and
    the three callback slots. *)
Record Radar : Type := {
  FindCallsign : string -> Coalition -> string * option Trackfile;
  fadedCallback : option callback;
  removedCallback : option callback;
  startedCallback : option callback
}.

(** [simpleradio.Client], as the controller uses it here. *)
Record Client : Type := {
  Frequencies : list RadioFrequency
}.

Record controller : Type := {
  coalition : Coalition;
  scope : Radar;
  srsClient : Client;
  enableAutomaticPicture : bool;
  pictureBroadcastInterval : Duration;
  pictureBroadcastDeadline : Time;
  wasLastPictureClean : bool;
  enableThreatMonitoring : bool;
  threatCooldowns : cooldownTracker;
  threatMonitoringCooldown : Duration;
  threatMonitoringRequiresSRS : bool;
  merges : mergeTracker;
  calls : option chan
}.

(** The methods [broadcastMerges], [broadcastThreats] and [broadcastPicture]
    are not among the sources: each is a transformer of the controller that
    publishes some calls.  [broadcastPicture] also takes [forceBroadcast]. *)
Class Broadcasts : Type := {
  broadcastMerges : context -> controller -> controller * list Call;
  broadcastThreats : context -> controller -> controller * list Call;
  broadcastPicture : context -> bool -> controller -> controller * list Call
}.

Context {B : Broadcasts}.

(** What a run does that can be seen from outside, in order. *)
Inductive effect : Type :=
| Log (e : logEvent)
| SetFadedCallback (f : option callback)
| SetRemovedCallback (f : option callback)
| SetStartedCallback (f : option callback)
| Send (ch : option chan) (call : Call)
| NewTicker (d : Duration)
| TickerStop
| Invoke (a : surveillance) (ctx : context).

(** The state a run works on: the controller, and how many identifiers
    [shortuuid.New] has handed out. *)
Record world : Type := {
  ctl : controller;
  uuids : nat
}.

(** ** A state and trace monad *)

Record result (A : Type) : Type := {
  value : A;
  final : world;
  trace : list effect
}.

Arguments value {A} r.
Arguments final {A} r.
Arguments trace {A} r.

Definition M (A : Type) : Type := world -> result A.

Definition ret {A : Type} (a : A) : M A :=
  fun w => {| value := a; final := w; trace := [] |}.

Definition bind {A B : Type} (m : M A) (k : A -> M B) : M B :=
  fun w =>
    let r1 := m w in
    let r2 := k (value r1) (final r1) in
    {| value := value r2; final := final r2; trace := (trace r1 ++ trace r2)%list |}.

Notation "x <- m ;; k" := (bind m (fun x => k))
  (at level 61, m at next level, right associativity).
Notation "m ;; k" := (bind m (fun _ => k))
  (at level 61, right associativity).

Definition emit (e : effect) : M unit :=
  fun w => {| value := tt; final := w; trace := [e] |}.

Definition getController : M controller :=
  fun w => {| value := ctl w; final := w; trace := [] |}.

Definition putController (c : controller) : M unit :=
  fun w => {| value := tt; final := {| ctl := c; uuids := uuids w |}; trace := [] |}.

(** [shortuuid.New()] *)
Definition newUUID : M string :=
  fun w => {| value := shortuuid (uuids w);
              final := {| ctl := ctl w; uuids := S (uuids w) |};
              trace := [] |}.

Definition log (l : level) (fields : list (string * string)) (msg : string)
  : M unit :=
  emit (Log {| logLevel := l; logFields := fields; logMessage := msg |}).

(** ** Assignments to the controller and to its scope *)

Definition withCalls (c : controller) (out : option chan) : controller :=
  {| coalition := coalition c;
     scope := scope c;
     srsClient := srsClient c;
     enableAutomaticPicture := enableAutomaticPicture c;
     pictureBroadcastInterval := pictureBroadcastInterval c;
     pictureBroadcastDeadline := pictureBroadcastDeadline c;
     wasLastPictureClean := wasLastPictureClean c;
     enableThreatMonitoring := enableThreatMonitoring c;
     threatCooldowns := threatCooldowns c;
     threatMonitoringCooldown := threatMonitoringCooldown c;
     threatMonitoringRequiresSRS := threatMonitoringRequiresSRS c;
     merges := merges c;
     calls := out |}.

Definition withScope (c : controller) (r : Radar) : controller :=
  {| coalition := coalition c;
     scope := r;
     srsClient := srsClient c;
     enableAutomaticPicture := enableAutomaticPicture c;
     pictureBroadcastInterval := pictureBroadcastInterval c;
     pictureBroadcastDeadline := pictureBroadcastDeadline c;
     wasLastPictureClean := wasLastPictureClean c;
     enableThreatMonitoring := enableThreatMonitoring c;
     threatCooldowns := threatCooldowns c;
     threatMonitoringCooldown := threatMonitoringCooldown c;
     threatMonitoringRequiresSRS := threatMonitoringRequiresSRS c;
     merges := merges c;
     calls := calls c |}.

Definition setFaded (r : Radar) (f : option callback) : Radar :=
  {| FindCallsign := FindCallsign r;
     fadedCallback := f;
     removedCallback := removedCallback r;
     startedCallback := startedCallback r |}.

Definition setRemoved (r : Radar) (f : option callback) : Radar :=
  {| FindCallsign := FindCallsign r;
     fadedCallback := fadedCallback r;
     removedCallback := f;
     startedCallback := startedCallback r |}.

Definition setStarted (r : Radar) (f : option callback) : Radar :=
  {| FindCallsign := FindCallsign r;
     fadedCallback := fadedCallback r;
     removedCallback := removedCallback r;
     startedCallback := f |}.

(** [c.scope.SetFadedCallback(f)] and its two siblings. *)
Definition scopeSetFadedCallback (f : option callback) : M unit :=
  c <- getController ;;
  putController (withScope c (setFaded (scope c) f)) ;;
  emit (SetFadedCallback f).

Definition scopeSetRemovedCallback (f : option callback) : M unit :=
  c <- getController ;;
  putController (withScope c (setRemoved (scope c) f)) ;;
  emit (SetRemovedCallback f).

Definition scopeSetStartedCallback (f : option callback) : M unit :=
  c <- getController ;;
  putController (withScope c (setStarted (scope c) f)) ;;
  emit (SetStartedCallback f).

(** [c.calls <- call].  The statement completes when a receiver takes the
    call, and the goroutine stays in it until then; [taken] says whether the
    call is taken.  The result says whether the statement has completed. *)
Definition send (taken : bool) (call : Call) : M bool :=
  c <- getController ;;
  if taken then (emit (Send (calls c) call) ;; ret true) else ret false.

(** A call of one of the three broadcasts: the controller it leaves, and the
    calls it publishes on [c.calls]. *)
Definition invoke (a : surveillance) (ctx : context)
  (f : controller -> controller * list Call) : M unit :=
  fun w =>
    let r := f (ctl w) in
    {| value := tt;
       final := {| ctl := fst r; uuids := uuids w |};
       trace := Invoke a ctx :: map (Send (calls (ctl w))) (snd r) |}.

(** ** The sources *)

(** [broadcastSunrise], lines 157-163.  The result says whether the send,
    its last statement, has completed. *)
Definition broadcastSunrise (taken : bool) (ctx : context) : M bool :=
  c <- getController ;;
  let frequencies :=
    fold_left (fun frequencies rf => (frequencies ++ [Frequency rf])%list)
              (Frequencies (srsClient c)) [] in
  id <- newUUID ;;
  send taken (NewCall (WithTraceID ctx id) (SunriseCall frequencies)).

(** The [case <-ticker.C] of the loop, lines 147-152. *)
Definition tick (ctx : context) (now : Time) : M unit :=
  id <- newUUID ;;
  invoke Merges (WithTraceID ctx id) (broadcastMerges (WithTraceID ctx id)) ;;
  id <- newUUID ;;
  invoke Threats (WithTraceID ctx id) (broadcastThreats (WithTraceID ctx id)) ;;
  c <- getController ;;
  if enableAutomaticPicture c && After now (pictureBroadcastDeadline c) then
    id <- newUUID ;;
    invoke Picture (WithTraceID ctx id)
           (broadcastPicture (WithTraceID ctx id) false)
  else ret tt.

(** The [case <-ctx.Done()] of the loop, lines 141-146, up to the [return]. *)
Definition detach : M unit :=
  log InfoLevel [] "detaching callbacks" ;;
  scopeSetFadedCallback None ;;
  scopeSetRemovedCallback None ;;
  scopeSetStartedCallback None.

(** The loop of lines 139-154, on the events [select] receives one after the
    other.  When they are used up the loop is waiting in [select]. *)
Fixpoint loop (ctx : context) (events : list event) : M status :=
  match events with
  | [] => ret Selecting
  | Done :: _ => detach ;; ret Exited
  | Tick now :: events' => tick ctx now ;; loop ctx events'
  end.

(** Lines 128-136: everything [Run] does before it enters the loop.  When
    the sunrise call is not taken, [Run] stays in [broadcastSunrise] and the
    ticker of line 136 is not created; the result says whether line 136 has
    been passed. *)
Definition attach (taken : bool) (ctx : context) (out : chan) : M bool :=
  c <- getController ;;
  putController (withCalls c (Some out)) ;;
  log InfoLevel [] "attaching callbacks" ;;
  scopeSetFadedCallback (Some handleFaded) ;;
  scopeSetRemovedCallback (Some handleRemoved) ;;
  sent <- broadcastSunrise taken ctx ;;
  if sent then (emit (NewTicker (15 * Second)%Z) ;; ret true) else ret false.

(** [Run], when the sunrise call is taken, on the events that [select] then
    receives.  The deferred [ticker.Stop()] runs when [Run] returns. *)
Definition Run (ctx : context) (out : chan) (events : list event) : M status :=
  attach true ctx out ;;
  s <- loop ctx events ;;
  match s with
  | Exited => emit TickerStop ;; ret Exited
  | Selecting => ret Selecting
  end.

(** What a call of [Run] meets: nobody ever takes the sunrise call, or it is
    taken and [select] receives some events. *)
Inductive environment : Type :=
| Unreceived
| Received (events : list event).

(** [Run] in either environment.  The result is [None] while [Run] is in the
    send of line 162. *)
Definition RunIn (ctx : context) (out : chan) (env : environment)
  : M (option status) :=
  match env with
  | Unreceived => attach false ctx out ;; ret None
  | Received events => s <- Run ctx out events ;; ret (Some s)
  end.

(** [findCallsign], lines 168-182. *)
Definition findCallsign (callsign : string)
  : M (string * option Trackfile * bool) :=
  c <- getController ;;
  let fields := [("parsedCallsign", callsign)] in
  let found := FindCallsign (scope c) callsign (coalition c) in
  let foundCallsign := fst found in
  match snd found with
  | None =>
      log InfoLevel fields "no trackfile found for callsign" ;;
      ret ("", None, false)
  | Some trackfile =>
      let fields := (fields ++ [("foundCallsign", foundCallsign)])%list in
      if IsLastKnownPointZero trackfile then
        log InfoLevel fields "found trackfile for callsign but without location" ;;
        ret (foundCallsign, Some trackfile, false)
      else
        log DebugLevel fields "found trackfile for callsign" ;;
        ret (foundCallsign, Some trackfile, true)
  end.

(** ** Reading a trace *)

(** The broadcasts invoked, in order. *)
Definition invocations (t : list effect) : list surveillance :=
  flat_map (fun e => match e with Invoke a _ => [a] | _ => [] end) t.

(** The calls sent, in order. *)
Definition sends (t : list effect) : list Call :=
  flat_map (fun e => match e with Send _ call => [call] | _ => [] end) t.

Definition pictureAttempted (t : list effect) : bool :=
  existsb (surveillance_eqb Picture) (invocations t).

(** A log line at info level, without fields. *)
Definition info (msg : string) : effect :=
  Log {| logLevel := InfoLevel; logFields := []; logMessage := msg |}.

(** How often a broadcast occurs in a sequence of them. *)
Definition count (a : surveillance) (l : list surveillance) : nat :=
  List.length (filter (surveillance_eqb a) l).

(** The controller on which a tick evaluates the condition of line 150: the
    one that [broadcastMerges] and then [broadcastThreats] leave. *)
Definition afterThreats (ctx : context) (w : world) : controller :=
  let c1 := fst (broadcastMerges (WithTraceID ctx (shortuuid (uuids w))) (ctl w)) in
  fst (broadcastThreats (WithTraceID ctx (shortuuid (S (uuids w)))) c1).

(** The ticks the loop takes before the cancellation, if any, is received. *)
Fixpoint ticksBeforeDone (events : list event) : nat :=
  match events with
  | Tick _ :: events' => S (ticksBeforeDone events')
  | _ => O
  end.

(** Sequences of broadcasts made of rounds: merges, threats, and possibly a
    picture after them. *)
Inductive rounds : list surveillance -> Prop :=
| rounds_nil : rounds []
| rounds_plain (l : list surveillance) :
    rounds l -> rounds (Merges :: Threats :: l)
| rounds_picture (l : list surveillance) :
    rounds l -> rounds (Merges :: Threats :: Picture :: l).

(** The constructors of the two trackers are not among the sources. *)
Class Trackers : Type := {
  newCooldownTracker : Duration -> cooldownTracker;
  newMergeTracker : mergeTracker
}.

Context {T : Trackers}.

(** [New], lines 101-124.  [now] is what [time.Now()] reads; the fields the
    composite literal leaves out have their zero value. *)
Definition New (now : Time) (rdr : Radar) (srsClient : Client)
  (coalition : Coalition) (enableAutomaticPicture : bool)
  (pictureBroadcastInterval : Duration) (enableThreatMonitoring : bool)
  (threatMonitoringCooldown : Duration) (threatMonitoringRequiresSRS : bool)
  : controller :=
  {| coalition := coalition;
     scope := rdr;
     srsClient := srsClient;
     enableAutomaticPicture := enableAutomaticPicture;
     pictureBroadcastInterval := pictureBroadcastInterval;
     pictureBroadcastDeadline := (now + pictureBroadcastInterval)%Z;
     wasLastPictureClean := false;
     enableThreatMonitoring := enableThreatMonitoring;
     threatCooldowns := newCooldownTracker threatMonitoringCooldown;
     threatMonitoringCooldown := threatMonitoringCooldown;
     threatMonitoringRequiresSRS := threatMonitoringRequiresSRS;
     merges := newMergeTracker;
     calls := None |}.

End Control.

Arguments value {L A} r.
Arguments final {L A} r.
Arguments trace {L A} r.

End Controller.

(* ===================================================================== *)
(** * Alternate request words (package parser) *)
(* ===================================================================== *)

Module Parser.
Local Open Scope string_scope.

(** The request words are constants of package parser that are declared
    outside the sources. *)
Class RequestWords : Type := {
  alphaCheck : string;
  bogeyDope : string;
  checkIn : string;
  declare : string;
  radioCheck : string;
  snaplock : string;
  tripwire : string
}.

Section Alternates.

Context {W : RequestWords}.

(** The map literal of lines 5-92, in the order it is written in. *)
Definition alternateRequestWords : list (string * string) := [
  ("alphacheck", alphaCheck);
  ("bog it", bogeyDope);
  ("bogado", bogeyDope);
  ("bogeido", bogeyDope);
  ("bogeied", bogeyDope);
  ("bogey-doke", bogeyDope);
  ("bogeydoke", bogeyDope);
  ("bogeydope", bogeyDope);
  ("bogeydote", bogeyDope);
  ("bogeyedope", bogeyDope);
  ("boggy", bogeyDope);
  ("bogido", bogeyDope);
  ("bogie", bogeyDope);
  ("bogit", bogeyDope);
  ("bogota", bogeyDope);
  ("bogueed", bogeyDope);
  ("bogueto", bogeyDope);
  ("bogy", bogeyDope);
  ("boji", bogeyDope);
  ("bokeh", bogeyDope);
  ("bokeido", bogeyDope);
  ("bokey", bogeyDope);
  ("bokeydope", bogeyDope);
  ("booby dop", bogeyDope);
  ("boog it", bogeyDope);
  ("boogie", bogeyDope);
  ("book it out", bogeyDope);
  ("book it up", bogeyDope);
  ("bovido", bogeyDope);
  ("boy dope", bogeyDope);
  ("bubby dope", bogeyDope);
  ("bucket up", bogeyDope);
  ("bug it out", bogeyDope);
  ("bug it", bogeyDope);
  ("bugadope", bogeyDope);
  ("bugged up", bogeyDope);
  ("buggettope", bogeyDope);
  ("buggidop", bogeyDope);
  ("buggie do", bogeyDope);
  ("buggie dog", bogeyDope);
  ("buggie dope", bogeyDope);
  ("buggy do", bogeyDope);
  ("buggy dog", bogeyDope);
  ("buggy dope", bogeyDope);
  ("checking in", checkIn);
  ("com check", radioCheck);
  ("comcheck", radioCheck);
  ("comes check", radioCheck);
  ("comm", radioCheck);
  ("comms", radioCheck);
  ("commscheck", radioCheck);
  ("commshack", radioCheck);
  ("comp check", radioCheck);
  ("comps check", radioCheck);
  ("coms", radioCheck);
  ("comsjack", radioCheck);
  ("declared", declare);
  ("fogey", bogeyDope);
  ("fogeyed", bogeyDope);
  ("foggy", bogeyDope);
  ("foggydope", bogeyDope);
  ("fogy dope", bogeyDope);
  ("fogy", bogeyDope);
  ("lucky dope", bogeyDope);
  ("mogito", bogeyDope);
  ("ogi doke", bogeyDope);
  ("ogi dop", bogeyDope);
  ("ogi dope", bogeyDope);
  ("ogidope", bogeyDope);
  ("okey", bogeyDope);
  ("oogie", bogeyDope);
  ("perimeter", tripwire);
  ("pogito", bogeyDope);
  ("pogy dope", bogeyDope);
  ("pokedo", bogeyDope);
  ("pokedome", bogeyDope);
  ("radiocheck", radioCheck);
  ("read a check", radioCheck);
  ("read it check", radioCheck);
  ("set threat radius", tripwire);
  ("set warning radius", tripwire);
  ("set warning", tripwire);
  ("snap lock", snaplock);
  ("trip wire", tripwire);
  ("voki", bogeyDope);
  ("warn me", tripwire)
].

(** [v, ok := m[key]] on a map given by its bindings. *)
Fixpoint lookup (m : list (string * string)) (key : string) : option string :=
  match m with
  | [] => None
  | (k, v) :: m' => if String.eqb key k then Some v else lookup m' key
  end.

End Alternates.

(** A lower case letter, a space or a hyphen. *)
Definition plain (ch : ascii) : bool :=
  let n := nat_of_ascii ch in
  ((97 <=? n)%nat && (n <=? 122)%nat) || (n =? 32)%nat || (n =? 45)%nat.

Fixpoint allPlain (s : string) : bool :=
  match s with
  | EmptyString => true
  | String ch rest => plain ch && allPlain rest
  end.

End Parser.

(* ===================================================================== *)
(** * Sample inputs *)
(* ===================================================================== *)

(** Concrete packets, and stand-ins for the collaborators that are not among
    the sources, on which the functions above can be run. *)
Module Samples.
Import Go.
Local Open Scope string_scope.

(** A packet that ends after the audio length header. *)
Definition headersOnly : slice :=
  ofBytes [x00; x08; x00; x02; x00; x00; x00; x00].

(** A packet whose audio segment announces two bytes of audio, followed by
    one frequency record. *)
Definition withAudio : slice :=
  ofBytes [x00; x14; x00; x04; x00; x0a; x00; x02; xaa; xbb;
           x41; xad; xc0; x7e; x80; x00; x00; x00; x00; x00].

(** A bearing in whole degrees, magnetic or true. *)
Record sampleBearing : Type := {
  degrees : Z;
  magnetic : bool
}.

Definition lowerAscii (ch : ascii) : ascii :=
  let n := nat_of_ascii ch in
  if (65 <=? n)%nat && (n <=? 90)%nat then ascii_of_nat (n + 32) else ch.

Fixpoint lower (s : string) : string :=
  match s with
  | EmptyString => EmptyString
  | String ch rest => String (lowerAscii ch) (lower rest)
  end.

#[export] Instance composerLibrary : Composer.Library := {|
  Composer.Bearing := sampleBearing;
  Composer.IsMagnetic := magnetic;
  Composer.BearingString := fun b => decimal (degrees b);
  Composer.Length := Z;
  Composer.float64 := Z;
  Composer.NauticalMiles := fun l => l;
  Composer.int := fun x => x;
  Composer.Group := string;
  Composer.ToLower := lower
|}.

#[export] Instance composerMethods : Composer.Methods := {|
  Composer.ComposeCallsigns := fun _ callsigns => String.concat ", " callsigns;
  Composer.ComposeGroup :=
    fun _ g => {| Composer.Subtitle := g; Composer.Speech := g |};
  Composer.PronounceBearing := fun b => decimal (degrees b)
|}.

Definition skyeye : Composer.composer := {| Composer.callsign := "Skyeye" |}.

Definition trueBearing : sampleBearing := {| degrees := 90; magnetic := false |}.

Definition alphaCheckFound : Composer.AlphaCheckResponse :=
  {| Composer.AlphaCheck_Callsign := "Eagle 1";
     Composer.AlphaCheck_Status := true;
     Composer.AlphaCheck_Location :=
       {| Composer.bearing := trueBearing; Composer.distance := 42 |} |}.

Definition alphaCheckFailed : Composer.AlphaCheckResponse :=
  {| Composer.AlphaCheck_Callsign := "Ghost 4";
     Composer.AlphaCheck_Status := false;
     Composer.AlphaCheck_Location :=
       {| Composer.bearing := trueBearing; Composer.distance := 0 |} |}.

Definition negativeContact : Composer.NegativeRadarContactResponse :=
  {| Composer.NegativeRadarContact_Callsign := "Ghost 4" |}.

(** A trackfile is reduced to whether its last known point is zero. *)
#[export] Instance controllerExternals : Controller.Externals := {|
  Controller.Coalition := bool;
  Controller.Trackfile := bool;
  Controller.IsLastKnownPointZero := fun t => t;
  Controller.unitFrequency := Z;
  Controller.RadioFrequency := Z * byte;
  Controller.Frequency := fst;
  Controller.cooldownTracker := unit;
  Controller.mergeTracker := unit;
  Controller.brevityCall := string;
  Controller.shortuuid := fun n => decimal (Z.of_nat n);
  Controller.chan := nat
|}.

(** Broadcasts that find nothing to say and leave the controller alone. *)
#[export] Instance quiet : Controller.Broadcasts := {|
  Controller.broadcastMerges := fun _ c => (c, []);
  Controller.broadcastThreats := fun _ c => (c, []);
  Controller.broadcastPicture := fun _ _ c => (c, [])
|}.

(** A scope that knows "Eagle 1" with a position and "Eagle 2" without. *)
Definition sampleScope : Controller.Radar := {|
  Controller.FindCallsign := fun callsign _ =>
    if String.eqb callsign "eagle 1" then ("Eagle 1", Some false)
    else if String.eqb callsign "eagle 2" then ("Eagle 2", Some true)
    else ("", None);
  Controller.fadedCallback := None;
  Controller.removedCallback := None;
  Controller.startedCallback := Some (Controller.registeredElsewhere "started")
|}.

(** A controller with automatic pictures enabled and the next one due at
    the instant 100 s. *)
Definition sampleController : Controller.controller := {|
  Controller.coalition := true;
  Controller.scope := sampleScope;
  Controller.srsClient :=
    {| Controller.Frequencies := [(251000000, x00); (133000000, x00)]%Z |};
  Controller.enableAutomaticPicture := true;
  Controller.pictureBroadcastInterval := (120 * Controller.Second)%Z;
  Controller.pictureBroadcastDeadline := (100 * Controller.Second)%Z;
  Controller.wasLastPictureClean := false;
  Controller.enableThreatMonitoring := true;
  Controller.threatCooldowns := tt;
  Controller.threatMonitoringCooldown := (120 * Controller.Second)%Z;
  Controller.threatMonitoringRequiresSRS := true;
  Controller.merges := tt;
  Controller.calls := None
|}.

Definition sampleWorld : Controller.world :=
  {| Controller.ctl := sampleController; Controller.uuids := 0 |}.

(** A scope on which no callback has been registered. *)
Definition freshScope : Controller.Radar := {|
  Controller.FindCallsign := fun _ _ => ("", None);
  Controller.fadedCallback := None;
  Controller.removedCallback := None;
  Controller.startedCallback := None
|}.

#[export] Instance sampleTrackers : Controller.Trackers := {|
  Controller.newCooldownTracker := fun _ => tt;
  Controller.newMergeTracker := tt
|}.

(** A packet with no audio, no frequency record, and a fixed segment. *)
Definition fixedOnly : slice :=
  ofBytes ([x00; x41; x00; x02; x00; x00; x00; x00;
            x00; x00; x01; x02;
            x00; x00; x00; x00; x00; x00; x00; x2a;
            x03]
           ++ repeat "a"%byte 22 ++ repeat "b"%byte 22).

End Samples.

(* ===================================================================== *)
(** * Properties of the runtime fragments *)
(* ===================================================================== *)

Module GoFacts.
Import Go.

Lemma bind_Returned {A B : Type} (m : outcome A) (k : A -> outcome B) (y : B) :
  bind m k = Returned y -> exists a, m = Returned a /\ k a = Returned y.
Proof.
  destruct m as [a| |]; simpl; intros H; try discriminate. now exists a.
Qed.

Lemma len_le_cap (s : slice) : (len s <= cap s)%nat.
Proof. unfold len, cap. lia. Qed.

Lemma reslice_inv (s : slice) (low high : Z) (w : slice) :
  reslice s low high = Returned w ->
  w = window s low high /\ 0 <= low /\ low <= high /\ high <= Z.of_nat (cap s).
Proof.
  unfold reslice.
  destruct ((0 <=? high) && (high <=? Z.of_nat (cap s))) eqn:Hh; simpl;
    [|discriminate].
  destruct ((0 <=? low) && (low <=? high)) eqn:Hl; simpl; [|discriminate].
  intros [= <-]. apply andb_prop in Hh, Hl. destruct Hh, Hl. repeat split; lia.
Qed.

Lemma reslice_ok (s : slice) (low high : Z) :
  0 <= low -> low <= high -> high <= Z.of_nat (cap s) ->
  reslice s low high = Returned (window s low high).
Proof.
  intros H0 H1 H2. unfold reslice.
  replace (0 <=? high) with true by (symmetry; apply Z.leb_le; lia).
  replace (high <=? Z.of_nat (cap s)) with true by (symmetry; apply Z.leb_le; lia).
  replace (0 <=? low) with true by (symmetry; apply Z.leb_le; lia).
  replace (low <=? high) with true by (symmetry; apply Z.leb_le; lia).
  reflexivity.
Qed.

Lemma reslice_beyond_cap (s : slice) (low high : Z) :
  Z.of_nat (cap s) < high ->
  reslice s low high = Panicked (SliceBoundsOutOfRange high (cap s)).
Proof.
  intros H. unfold reslice.
  replace (high <=? Z.of_nat (cap s)) with false by (symmetry; apply Z.leb_gt; lia).
  now rewrite andb_false_r.
Qed.

Lemma len_window (s : slice) (low high : Z) :
  0 <= low -> low <= high -> high <= Z.of_nat (cap s) ->
  len (window s low high) = Z.to_nat (high - low).
Proof.
  intros H0 H1 H2. unfold len, window; simpl.
  rewrite length_firstn, length_skipn. unfold backing. rewrite length_app.
  unfold cap in H2. lia.
Qed.

Lemma index_ok (s : slice) (i : Z) :
  0 <= i < Z.of_nat (len s) -> exists x, index s i = Returned x.
Proof.
  intros [H0 H1]. unfold index.
  replace (0 <=? i) with true by (symmetry; apply Z.leb_le; lia).
  replace (i <? Z.of_nat (len s)) with true by (symmetry; apply Z.ltb_lt; lia).
  simpl. destruct (nth_error (elems s) (Z.to_nat i)) as [x|] eqn:E.
  - now exists x.
  - apply nth_error_None in E. unfold len in H1. lia.
Qed.

Lemma index_beyond_len (s : slice) (i : Z) :
  Z.of_nat (len s) <= i -> index s i = Panicked (IndexOutOfRange i (len s)).
Proof.
  intros H. unfold index.
  replace (i <? Z.of_nat (len s)) with false by (symmetry; apply Z.ltb_ge; lia).
  now rewrite andb_false_r.
Qed.

Lemma shifted_nonneg (bits : Z) (s : slice) (i : nat) (sh : Z) :
  0 <= shifted bits s i sh.
Proof.
  unfold shifted, wrap.
  destruct (Z.eq_dec (2 ^ bits) 0) as [E|E].
  - rewrite E, Z.mod_0_r. apply Z.shiftl_nonneg. unfold u8. lia.
  - destruct (Z.le_gt_cases 0 bits).
    + apply Z.mod_pos_bound. lia.
    + rewrite Z.pow_neg_r in E by lia. congruence.
Qed.

Lemma Uint16_nonneg (s : slice) (v : Z) : Uint16 s = Returned v -> 0 <= v.
Proof.
  unfold Uint16. intros H. apply bind_Returned in H as (_ & _ & [= <-]).
  apply Z.lor_nonneg; split; apply shifted_nonneg.
Qed.

Lemma Uint16_ok (s : slice) : (2 <= len s)%nat -> exists v, Uint16 s = Returned v.
Proof.
  intros H. unfold Uint16. destruct (index_ok s 1) as [x ->]; [lia|].
  simpl. eauto.
Qed.

Lemma Uint64_ok (s : slice) : (8 <= len s)%nat -> exists v, Uint64 s = Returned v.
Proof.
  intros H. unfold Uint64. destruct (index_ok s 7) as [x ->]; [lia|].
  simpl. eauto.
Qed.

Lemma append_empty (s : string) : (s ++ "")%string = s.
Proof. induction s as [|ch s IH]; simpl; [reflexivity | now rewrite IH]. Qed.

Lemma append_assoc (s t u : string) : ((s ++ t) ++ u)%string = (s ++ (t ++ u))%string.
Proof. induction s as [|ch s IH]; simpl; [reflexivity | now rewrite IH]. Qed.

End GoFacts.

(* ===================================================================== *)
(** * Properties of the voice packet decoder *)
(* ===================================================================== *)

Module AudioFacts.
Import Go Audio GoFacts.

(** Splits a hypothesis [x <- m ;; k = Returned y] into its steps. *)
Ltac unbind H :=
  repeat match type of H with
  | bind _ _ = Returned _ =>
      let a := fresh "v" in
      let E := fresh "E" in
      apply bind_Returned in H as (a & E & H)
  end.

Lemma decodeHeaders_inv (b : slice) (p : VoicePacket) :
  decodeHeaders b = Returned p ->
  AudioLength p = 0 /\ Frequencies p = [] /\
  0 <= FrequenciesSegmentLength p /\ 6 <= Z.of_nat (cap b).
Proof.
  unfold decodeHeaders. intros H. unbind H. injection H as <-. simpl.
  apply reslice_inv in E3. apply Uint16_nonneg in E4. repeat split; lia.
Qed.

Lemma decodeHeaders_ok (b : slice) :
  6 <= Z.of_nat (cap b) -> exists p, decodeHeaders b = Returned p.
Proof.
  intros H. unfold decodeHeaders.
  rewrite !reslice_ok by lia. simpl.
  destruct (Uint16_ok (window b 0 2)) as [v1 ->]; [rewrite len_window; lia|].
  simpl.
  destruct (Uint16_ok (window b 2 4)) as [v2 ->]; [rewrite len_window; lia|].
  simpl.
  destruct (Uint16_ok (window b 4 6)) as [v3 ->]; [rewrite len_window; lia|].
  simpl. eauto.
Qed.

(** The state in which the loop is entered. *)
Lemma loopEntry_inv (b : slice) (o : segmentOffsets) (p : VoicePacket) :
  loopEntry b = Returned (o, p) ->
  audioBytesOffset o = 8 /\ frequenciesOffset o = 8 /\
  fixedSegmentOffset o = 8 + FrequenciesSegmentLength p /\
  0 <= FrequenciesSegmentLength p /\
  Frequencies p = [] /\
  AudioBytes p = window b 8 8 /\
  Uint16 (window b 6 8) = Returned (AudioLength p) /\
  8 <= Z.of_nat (cap b).
Proof.
  unfold loopEntry. intros H. unbind H. injection H as <- <-.
  apply decodeHeaders_inv in E as (Hal & Hf & Hfsl & _).
  unfold decodeAudioSegment, computeOffsets in E0. rewrite Hal in E0.
  simpl in E0. unbind E0. injection E0 as <-. simpl.
  apply reslice_inv in E as [-> _]. apply reslice_inv in E2 as [-> ?].
  unfold computeOffsets; simpl. rewrite Hal.
  repeat split; try lia; assumption.
Qed.

(** The loop is reached exactly by the slices of capacity 8 or more. *)
Lemma loopEntry_ok (b : slice) :
  8 <= Z.of_nat (cap b) -> exists o p, loopEntry b = Returned (o, p).
Proof.
  intros H. unfold loopEntry.
  destruct (decodeHeaders_ok b) as [p0 E]; [lia|]. rewrite E. simpl.
  apply decodeHeaders_inv in E as (Hal & _).
  unfold decodeAudioSegment, computeOffsets. rewrite Hal. simpl.
  rewrite (reslice_ok b 6 8) by lia. simpl.
  destruct (Uint16_ok (window b 6 8)) as [v ->]; [rewrite len_window; lia|].
  simpl. rewrite (reslice_ok b 8 8) by lia. simpl. eauto.
Qed.

Lemma readFrequency_ok (b : slice) (i : Z) :
  0 <= i -> i + 10 <= Z.of_nat (len b) ->
  exists f, readFrequency b i = Returned f.
Proof.
  intros H0 H1. unfold readFrequency. pose proof (len_le_cap b).
  rewrite reslice_ok by lia. simpl.
  destruct (Uint64_ok (window b i (i + 8))) as [v ->];
    [rewrite len_window; lia|]. simpl.
  destruct (index_ok b (i + 8)) as [m ->]; [lia|]. simpl.
  destruct (index_ok b (i + 9)) as [e ->]; [lia|]. simpl. eauto.
Qed.

Lemma readFrequency_short (b : slice) (i : Z) :
  0 <= i -> Z.of_nat (len b) < i + 10 ->
  exists e, readFrequency b i = Panicked e.
Proof.
  intros H0 H1. unfold readFrequency.
  destruct (Z.lt_ge_cases (Z.of_nat (cap b)) (i + 8)) as [Hc|Hc].
  { rewrite reslice_beyond_cap by lia. simpl. eauto. }
  rewrite reslice_ok by lia. simpl.
  destruct (Uint64_ok (window b i (i + 8))) as [v ->];
    [rewrite len_window; lia|]. simpl.
  destruct (Z.le_gt_cases (Z.of_nat (len b)) (i + 8)) as [Hl|Hl].
  { rewrite index_beyond_len by lia. simpl. eauto. }
  destruct (index_ok b (i + 8)) as [m ->]; [lia|]. simpl.
  rewrite index_beyond_len by lia. simpl. eauto.
Qed.

(** At the index the loop starts from, the condition holds, whatever the
    packet says. *)
Lemma loopCondition_stuck (o : segmentOffsets) (p : VoicePacket) :
  0 <= FrequenciesSegmentLength p ->
  loopCondition o (frequenciesOffset o) p = true.
Proof. intros H. unfold loopCondition. apply Z.leb_le. lia. Qed.

Lemma frequenciesLoop_spins (b : slice) (o : segmentOffsets) :
  0 <= frequenciesOffset o -> frequenciesOffset o + 10 <= Z.of_nat (len b) ->
  forall fuel p, 0 <= FrequenciesSegmentLength p ->
  frequenciesLoop fuel b o (frequenciesOffset o) p = OutOfFuel.
Proof.
  intros H0 H1 fuel. induction fuel as [|fuel IH]; intros p Hp; simpl;
    rewrite loopCondition_stuck by assumption; [reflexivity|].
  destruct (readFrequency_ok b (frequenciesOffset o)) as [f ->]; [lia..|].
  simpl. apply IH. exact Hp.
Qed.

Lemma frequenciesLoop_panics (b : slice) (o : segmentOffsets) (fuel : nat)
  (p : VoicePacket) :
  0 <= frequenciesOffset o -> Z.of_nat (len b) < frequenciesOffset o + 10 ->
  0 <= FrequenciesSegmentLength p ->
  exists e, frequenciesLoop (S fuel) b o (frequenciesOffset o) p = Panicked e.
Proof.
  intros H0 H1 Hp. simpl. rewrite loopCondition_stuck by assumption.
  destruct (readFrequency_short b (frequenciesOffset o)) as [e ->]; [lia..|].
  simpl. eauto.
Qed.

(** C2, as stated, fails on a packet that ends after the audio length
    header: the loop is reached and its condition holds, so the body is
    entered; the first slice expression of the body, [b[8:16]], is out of
    range for a capacity of 8, so the call leaves the loop, and the function,
    by a panic.  The loop is thus neither skipped nor run for ever. *)
Lemma newVoicePacketFrom_headersOnly_panics :
  (exists o p, loopEntry Samples.headersOnly = Returned (o, p) /\
               loopCondition o (frequenciesOffset o) p = true) /\
  newVoicePacketFrom 1 Samples.headersOnly
    = Panicked (SliceBoundsOutOfRange 16 8) /\
  ~ (forall fuel, newVoicePacketFrom fuel Samples.headersOnly = OutOfFuel).
Proof.
  split; [|split].
  - do 2 eexists. split; vm_compute; reflexivity.
  - vm_compute. reflexivity.
  - intros H. specialize (H 1%nat). vm_compute in H. discriminate.
Qed.

(** C2, amended: an iteration of the loop of [newVoicePacketFrom] is
    followed by an iteration at the same index, and the condition of the loop
    holds whenever the loop is reached; so no call that reaches the loop
    returns a packet.  On a slice of fewer than 18 bytes the
    first iteration panics (the record is read at bytes 8 to 17); on a slice
    of 18 bytes or more the loop never exits, whatever the fuel. *)
Theorem newVoicePacketFrom_never_returns (b : slice) (o : segmentOffsets)
  (p : VoicePacket) :
  loopEntry b = Returned (o, p) ->
  (forall fuel i q f,
     loopCondition o i q = true -> readFrequency b i = Returned f ->
     frequenciesLoop (S fuel) b o i q
       = frequenciesLoop fuel b o i (appendFrequency q f)) /\
  loopCondition o (frequenciesOffset o) p = true /\
  (forall fuel q, newVoicePacketFrom fuel b <> Returned q) /\
  (Z.of_nat (len b) < 18 ->
     forall fuel, exists e, newVoicePacketFrom (S fuel) b = Panicked e) /\
  (18 <= Z.of_nat (len b) ->
     forall fuel, newVoicePacketFrom fuel b = OutOfFuel).
Proof.
  intros E. pose proof (loopEntry_inv _ _ _ E) as (_ & Hfo & _ & Hfsl & _).
  split.
  { intros fuel i q f Hcond Hread. cbn [frequenciesLoop].
    rewrite Hcond, Hread. reflexivity. }
  assert (Hlong : 18 <= Z.of_nat (len b) ->
                  forall fuel, newVoicePacketFrom fuel b = OutOfFuel).
  { intros H fuel. unfold newVoicePacketFrom. rewrite E. simpl.
    rewrite frequenciesLoop_spins; [reflexivity|lia..]. }
  assert (Hshort : Z.of_nat (len b) < 18 ->
            forall fuel, exists e, newVoicePacketFrom (S fuel) b = Panicked e).
  { intros H fuel. unfold newVoicePacketFrom. rewrite E.
    destruct (frequenciesLoop_panics b o fuel p) as [e He]; [lia..|].
    exists e. cbn [bind]. rewrite He. reflexivity. }
  split; [apply loopCondition_stuck; exact Hfsl|].
  split; [|split; assumption].
  intros fuel q. destruct (Z.lt_ge_cases (Z.of_nat (len b)) 18) as [H|H].
  - destruct fuel as [|fuel].
    + unfold newVoicePacketFrom. rewrite E. simpl.
      rewrite loopCondition_stuck by assumption. discriminate.
    + destruct (Hshort H fuel) as [e ->]. discriminate.
  - rewrite Hlong by assumption. discriminate.
Qed.

(** The amended C2 on a packet with one complete frequency record. *)
Lemma newVoicePacketFrom_never_returns_withAudio :
  (exists o p, loopEntry Samples.withAudio = Returned (o, p)) /\
  (forall fuel q, newVoicePacketFrom fuel Samples.withAudio <> Returned q) /\
  (forall fuel, newVoicePacketFrom fuel Samples.withAudio = OutOfFuel).
Proof.
  destruct (loopEntry Samples.withAudio) as [[o p]| |] eqn:E;
    try (vm_compute in E; discriminate).
  destruct (newVoicePacketFrom_never_returns Samples.withAudio o p E)
    as (_ & _ & Hnever & _ & Hlong).
  split; [eauto|]. split; [exact Hnever|].
  apply Hlong. vm_compute. discriminate.
Defined.

(** C10: the offset of the frequency segment is computed while [AudioLength]
    still has its zero value.  Whenever the loop is reached, that offset is
    8, the byte after the audio length header, and [AudioBytes] is [b[8:8]],
    which has no element, while [AudioLength] holds whatever the two bytes of
    the header encode. *)
Theorem frequenciesOffset_ignores_AudioLength (b : slice) (o : segmentOffsets)
  (p : VoicePacket) :
  loopEntry b = Returned (o, p) ->
  frequenciesOffset o = audioBytesOffset o /\
  frequenciesOffset o = 8 /\
  AudioBytes p = window b 8 8 /\
  elems (AudioBytes p) = [] /\
  Uint16 (window b 6 8) = Returned (AudioLength p).
Proof.
  intros E. apply loopEntry_inv in E as (Ha & Hf & _ & _ & _ & Hb & Hl & Hc).
  repeat split; try congruence.
  rewrite Hb. reflexivity.
Qed.

(** C10 on a packet that announces two bytes of audio: they are not in
    [AudioBytes]. *)
Lemma frequenciesOffset_ignores_AudioLength_withAudio :
  exists o p,
    loopEntry Samples.withAudio = Returned (o, p) /\
    AudioLength p = 2 /\
    frequenciesOffset o = 8 /\
    elems (AudioBytes p) = [].
Proof.
  destruct (loopEntry Samples.withAudio) as [[o p]| |] eqn:E;
    try (vm_compute in E; discriminate).
  exists o, p. split; [reflexivity|].
  destruct (frequenciesOffset_ignores_AudioLength Samples.withAudio o p E)
    as (_ & Hf & _ & He & _).
  split; [|split; assumption].
  vm_compute in E. injection E as _ <-. reflexivity.
Defined.

End AudioFacts.

(* ===================================================================== *)
(** * Properties of the composer *)
(* ===================================================================== *)

Module ComposerFacts.
Import Go Zerolog Composer GoFacts.
Local Open Scope string_scope.

Section Facts.

Context {L : Library} {C : Methods}.

(** C7: for a response with [Status] set, the text is built from the bearing
    and the distance as they are supplied: the bearing through its own
    [String] and through [PronounceBearing], the distance as its whole number
    of nautical miles.  Whether the bearing is magnetic decides one thing
    only: a bearing that is not is reported by one event at error level, and
    the response is the same. *)
Theorem alpha_check_forwards_bearing (c : composer) (response : AlphaCheckResponse) :
  AlphaCheck_Status response = true ->
  let location := AlphaCheck_Location response in
  let miles := decimal (int (NauticalMiles (distance location))) in
  let requester := ComposeCallsigns c [AlphaCheck_Callsign response] in
  let gci := ComposeCallsigns c [callsign c] in
  snd (ComposeAlphaCheckResponse c response) =
    {| Subtitle := requester ++ ", " ++ gci ++ ", contact, alpha check bullseye "
                     ++ BearingString (bearing location) ++ "/" ++ miles;
       Speech := requester ++ ", " ++ gci ++ ", contact, alpha check bullseye "
                   ++ PronounceBearing (bearing location) ++ ", " ++ miles |} /\
  fst (ComposeAlphaCheckResponse c response) =
    if IsMagnetic (bearing location) then []
    else [ {| logLevel := ErrorLevel;
              logFields := [("bearing", BearingString (bearing location))];
              logMessage :=
                "bearing provided to ComposeAlphaCheckResponse should be magnetic" |} ].
Proof.
  intros H. unfold ComposeAlphaCheckResponse. rewrite H. cbn zeta. split.
  - cbn [snd Sprintf Ascii.eqb Bool.eqb formatOperand extra].
    rewrite !append_empty. reflexivity.
  - cbn [fst]. destruct (IsMagnetic _); reflexivity.
Qed.

(** C8, amended: a [NegativeRadarContactResponse] is answered with one of
    the thirteen templates of [replies], the one the draw selects, filled in
    with the composed callsign; every template starts with the callsign
    followed by ", negative radar contact", and subtitle and speech are the
    same text.  An [AlphaCheckResponse] whose [Status] is not set is
    answered with the callsign as given followed by ", negative contact",
    without a draw, again as subtitle and as speech. *)
Theorem negative_contact_replies (c : composer) (draw : nat)
  (response : NegativeRadarContactResponse) (failed : AlphaCheckResponse) :
  (draw < List.length replies)%nat ->
  AlphaCheck_Status failed = false ->
  let requester := ComposeCallsigns c [NegativeRadarContact_Callsign response] in
  (exists tail,
     nth_error replies draw = Some ("%s, negative radar contact" ++ tail) /\
     ComposeNegativeRadarContactResponse c draw response =
       Returned {| Subtitle := requester ++ ", negative radar contact" ++ tail;
                   Speech := requester ++ ", negative radar contact" ++ tail |}) /\
  ComposeAlphaCheckResponse c failed =
    ([], {| Subtitle := AlphaCheck_Callsign failed ++ ", negative contact";
            Speech := AlphaCheck_Callsign failed ++ ", negative contact" |}).
Proof.
  intros Hdraw Hfailed requester. split.
  - unfold ComposeNegativeRadarContactResponse. fold requester.
    do 13 (destruct draw as [|draw];
           [eexists; split; cbn; reflexivity|]).
    simpl in Hdraw. lia.
  - unfold ComposeAlphaCheckResponse. rewrite Hfailed. reflexivity.
Qed.

(** C9: the speech of a threat call is the composed callsigns, ", " and the
    speech of the group as it is; its subtitle is the composed callsigns,
    ", " and the subtitle of the group in which [strings.ToLower] has been
    applied to the first character and to nothing else. *)
Theorem threat_call_composition (c : composer) (call : ThreatCall) :
  let group := ComposeGroup c (Threat_Group call) in
  let callsignList := ComposeCallsigns c (Threat_Callsigns call) in
  Speech (ComposeThreatCall c call) = callsignList ++ ", " ++ Speech group /\
  Subtitle (ComposeThreatCall c call) =
    callsignList ++ ", " ++ applyToFirstCharacter (Subtitle group) ToLower /\
  applyToFirstCharacter (Subtitle group) ToLower =
    match Subtitle group with
    | EmptyString => EmptyString
    | String first rest => ToLower (String first EmptyString) ++ rest
    end.
Proof.
  intros group callsignList. unfold ComposeThreatCall.
  fold group. fold callsignList.
  cbn [Speech Subtitle Sprintf Ascii.eqb Bool.eqb formatOperand extra].
  rewrite !append_empty. repeat split.
Qed.

End Facts.

Import Samples.

(** C7 on a bearing that is not magnetic: the error is logged and the
    bearing is in the text as it came. *)
Lemma alpha_check_forwards_bearing_true_bearing :
  Composer.ComposeAlphaCheckResponse Samples.skyeye Samples.alphaCheckFound =
    ([ {| logLevel := ErrorLevel;
          logFields := [("bearing", "90")];
          logMessage :=
            "bearing provided to ComposeAlphaCheckResponse should be magnetic" |} ],
     {| Subtitle := "Eagle 1, Skyeye, contact, alpha check bullseye 90/42";
        Speech := "Eagle 1, Skyeye, contact, alpha check bullseye 90, 42" |}).
Proof.
  pose proof (alpha_check_forwards_bearing Samples.skyeye Samples.alphaCheckFound
                eq_refl) as [Hresponse Hlog].
  rewrite (surjective_pairing (ComposeAlphaCheckResponse _ _)).
  rewrite Hresponse, Hlog. reflexivity.
Defined.

(** C8, as stated, fails on an alpha check that did not find the requester:
    the reply to it is one fixed text, which lacks the word "radar" and is
    the filling of none of the thirteen templates. *)
Lemma alphaCheckFailed_reply_is_fixed :
  let reply := snd (ComposeAlphaCheckResponse Samples.skyeye Samples.alphaCheckFailed) in
  AlphaCheck_Status Samples.alphaCheckFailed = false /\
  reply = {| Subtitle := "Ghost 4, negative contact";
             Speech := "Ghost 4, negative contact" |} /\
  String.prefix "Ghost 4, negative radar contact" (Speech reply) = false /\
  forallb (fun template =>
             negb (String.eqb (Sprintf template [Str "Ghost 4"]) (Speech reply)))
          replies = true.
Proof. vm_compute. repeat split. Qed.

(** The amended C8 on the same requester: the thirteenth template, and the
    fixed reply. *)
Lemma negative_contact_replies_ghost :
  ComposeNegativeRadarContactResponse Samples.skyeye 12 Samples.negativeContact =
    Returned
      {| Subtitle :=
           "Ghost 4, negative radar contact. I do not have that callsign on scope.";
         Speech :=
           "Ghost 4, negative radar contact. I do not have that callsign on scope." |} /\
  ComposeAlphaCheckResponse Samples.skyeye Samples.alphaCheckFailed =
    ([], {| Subtitle := "Ghost 4, negative contact";
            Speech := "Ghost 4, negative contact" |}).
Proof.
  assert (Hdraw : (12 < List.length replies)%nat) by (simpl; lia).
  destruct (negative_contact_replies Samples.skyeye 12 Samples.negativeContact
              Samples.alphaCheckFailed Hdraw eq_refl)
    as [(tail & Hnth & Hreply) Hfixed].
  split; [|exact Hfixed].
  injection Hnth as <-. exact Hreply.
Defined.

End ComposerFacts.

(* ===================================================================== *)
(** * Properties of the controller *)
(* ===================================================================== *)

Module ControllerFacts.
Import Zerolog Controller.
Local Open Scope string_scope.

Section Facts.

Context {L : Externals} {B : Broadcasts}.

(** ** The monad *)

Lemma trace_bind {A A' : Type} (m : M A) (k : A -> M A') (w : world) :
  trace (bind m k w) = (trace (m w) ++ trace (k (value (m w)) (final (m w))))%list.
Proof. reflexivity. Qed.

Lemma value_bind {A A' : Type} (m : M A) (k : A -> M A') (w : world) :
  value (bind m k w) = value (k (value (m w)) (final (m w))).
Proof. reflexivity. Qed.

Lemma final_bind {A A' : Type} (m : M A) (k : A -> M A') (w : world) :
  final (bind m k w) = final (k (value (m w)) (final (m w))).
Proof. reflexivity. Qed.

(** ** Broadcasts in a trace *)

Lemma invocations_app (t u : list effect) :
  invocations (t ++ u) = (invocations t ++ invocations u)%list.
Proof. unfold invocations. apply flat_map_app. Qed.

Lemma sends_app (t u : list effect) :
  sends (t ++ u) = (sends t ++ sends u)%list.
Proof. unfold sends. apply flat_map_app. Qed.

Lemma invocations_sends (ch : option chan) (published : list Call) :
  invocations (map (Send ch) published) = [].
Proof. induction published as [|call published IH]; simpl; auto. Qed.

Lemma invocations_invoke (a : surveillance) (ctx : context)
  (f : controller -> controller * list Call) (w : world) :
  invocations (trace (invoke a ctx f w)) = [a].
Proof.
  unfold invoke. cbn [trace].
  change (invocations (Invoke a ctx :: ?t)) with (a :: invocations t).
  now rewrite invocations_sends.
Qed.

Lemma fold_append_map {A A' : Type} (f : A -> A') (l : list A) (acc : list A') :
  fold_left (fun acc x => (acc ++ [f x])%list) l acc = (acc ++ map f l)%list.
Proof.
  revert acc. induction l as [|x l IH]; intros acc; simpl.
  - now rewrite app_nil_r.
  - rewrite IH, <- app_assoc. reflexivity.
Qed.

Lemma count_app (a : surveillance) (l l' : list surveillance) :
  count a (l ++ l') = (count a l + count a l')%nat.
Proof. unfold count. now rewrite filter_app, length_app. Qed.

Lemma trace_detach (w : world) :
  trace (detach w) =
    [info "detaching callbacks"; SetFadedCallback None;
     SetRemovedCallback None; SetStartedCallback None].
Proof. reflexivity. Qed.

Lemma scope_detach (w : world) :
  let r := scope (ctl (final (detach w))) in
  fadedCallback r = None /\ removedCallback r = None /\ startedCallback r = None.
Proof. repeat split. Qed.

Lemma invocations_tick (ctx : context) (now : Time) (w : world) :
  invocations (trace (tick ctx now w)) =
    Merges :: Threats ::
      (if enableAutomaticPicture (afterThreats ctx w)
          && After now (pictureBroadcastDeadline (afterThreats ctx w))
       then [Picture] else []).
Proof.
  unfold tick, afterThreats.
  rewrite !trace_bind, !invocations_app, !invocations_invoke.
  cbn [bind trace value final newUUID invoke getController ctl uuids
       invocations flat_map app fst].
  destruct (enableAutomaticPicture _ && After now _).
  - rewrite trace_bind, invocations_app, invocations_invoke. reflexivity.
  - reflexivity.
Qed.

Lemma invocations_loop (ctx : context) (events : list event) :
  forall w,
    let l := invocations (trace (loop ctx events w)) in
    rounds l /\
    count Merges l = ticksBeforeDone events /\
    count Threats l = ticksBeforeDone events.
Proof.
  induction events as [|[|now] events IH]; intros w.
  - repeat split. constructor.
  - repeat split. constructor.
  - cbn [loop]. cbv zeta. rewrite trace_bind, invocations_app, invocations_tick.
    destruct (IH (final (tick ctx now w))) as (Hr & Hm & Ht).
    cbn [ticksBeforeDone]. rewrite !count_app, Hm, Ht.
    destruct (enableAutomaticPicture _ && After now _);
      (split; [constructor; exact Hr | split; reflexivity]).
Qed.

Lemma trace_attach (ctx : context) (out : chan) (w : world) :
  trace (attach true ctx out w) =
    [info "attaching callbacks";
     SetFadedCallback (Some handleFaded);
     SetRemovedCallback (Some handleRemoved);
     Send (Some out)
          (NewCall (WithTraceID ctx (shortuuid (uuids w)))
                   (SunriseCall (map Frequency (Frequencies (srsClient (ctl w))))));
     NewTicker (15 * Second)%Z].
Proof.
  unfold attach, broadcastSunrise, send.
  cbn. rewrite fold_append_map. reflexivity.
Qed.

(** Without a receiver the trace ends before the send. *)
Lemma trace_attach_unreceived (ctx : context) (out : chan) (w : world) :
  trace (attach false ctx out w) =
    [info "attaching callbacks";
     SetFadedCallback (Some handleFaded);
     SetRemovedCallback (Some handleRemoved)].
Proof. reflexivity. Qed.

Lemma final_attach (taken : bool) (ctx : context) (out : chan) (w : world) :
  let c := ctl (final (attach taken ctx out w)) in
  calls c = Some out /\
  fadedCallback (scope c) = Some handleFaded /\
  removedCallback (scope c) = Some handleRemoved /\
  startedCallback (scope c) = startedCallback (scope (ctl w)) /\
  uuids (final (attach taken ctx out w)) = S (uuids w) /\
  value (attach taken ctx out w) = taken.
Proof. destruct taken; repeat split. Qed.

Lemma invocations_attach (ctx : context) (out : chan) (w : world) :
  invocations (trace (attach true ctx out w)) = [].
Proof. rewrite trace_attach. reflexivity. Qed.

(** [Run] is the attachment, the loop, and the deferred stop on return. *)
Lemma trace_Run (ctx : context) (out : chan) (events : list event) (w : world) :
  trace (Run ctx out events w) =
    (trace (attach true ctx out w)
     ++ trace (loop ctx events (final (attach true ctx out w)))
     ++ match value (loop ctx events (final (attach true ctx out w))) with
        | Exited => [TickerStop]
        | Selecting => []
        end)%list.
Proof.
  unfold Run. rewrite !trace_bind. do 2 f_equal.
  destruct (value (loop ctx events (final (attach true ctx out w)))); reflexivity.
Qed.

(** The loop up to the cancellation and after it. *)
Lemma loop_until_Done (ctx : context) (nows : list Time) (rest : list event) :
  forall w,
    let waiting := loop ctx (map Tick nows) w in
    let stopped := loop ctx (map Tick nows ++ Done :: rest) w in
    value waiting = Selecting /\
    value stopped = Exited /\
    trace stopped = (trace waiting ++ trace (detach (final waiting)))%list /\
    final stopped = final (detach (final waiting)).
Proof.
  induction nows as [|now nows IH]; intros w.
  - repeat split.
  - cbn [map app loop]. cbv zeta.
    destruct (IH (final (tick ctx now w))) as (Hw & Hs & Ht & Hf).
    rewrite !value_bind, !trace_bind, !final_bind.
    rewrite Hw, Hs, Ht, Hf, app_assoc. repeat split.
Qed.

(** A tick, in terms of the three broadcasts themselves. *)
Lemma tick_closed (ctx : context) (now : Time) (w : world) :
  let ctx1 := WithTraceID ctx (shortuuid (uuids w)) in
  let ctx2 := WithTraceID ctx (shortuuid (S (uuids w))) in
  let ctx3 := WithTraceID ctx (shortuuid (S (S (uuids w)))) in
  let merged := broadcastMerges ctx1 (ctl w) in
  let threatened := broadcastThreats ctx2 (fst merged) in
  let due := enableAutomaticPicture (fst threatened)
             && After now (pictureBroadcastDeadline (fst threatened)) in
  let pictured := broadcastPicture ctx3 false (fst threatened) in
  trace (tick ctx now w) =
    (Invoke Merges ctx1 :: map (Send (calls (ctl w))) (snd merged)
     ++ Invoke Threats ctx2 :: map (Send (calls (fst merged))) (snd threatened)
     ++ (if due
         then Invoke Picture ctx3
              :: map (Send (calls (fst threatened))) (snd pictured)
         else []))%list /\
  ctl (final (tick ctx now w)) = (if due then fst pictured else fst threatened) /\
  uuids (final (tick ctx now w)) = (if due then 3 + uuids w else 2 + uuids w)%nat.
Proof.
  cbv zeta. unfold tick, bind.
  cbn [trace value final newUUID invoke getController ctl uuids app fst snd].
  destruct (enableAutomaticPicture _ && After now _);
    cbn [ret trace value final newUUID invoke ctl uuids app fst snd];
    rewrite <- ?app_assoc, ?app_nil_r; repeat split.
Qed.

(** The loop over ticks followed by more events goes on, after the ticks,
    from the state they leave. *)
Lemma loop_after_ticks (ctx : context) (nows : list Time) (events : list event) :
  forall w,
    let first := loop ctx (map Tick nows) w in
    let whole := loop ctx (map Tick nows ++ events) w in
    let second := loop ctx events (final first) in
    value whole = value second /\
    final whole = final second /\
    trace whole = (trace first ++ trace second)%list.
Proof.
  cbv zeta. induction nows as [|now nows IH]; intros w.
  - repeat split.
  - cbn [map app loop].
    rewrite !value_bind, !final_bind, !trace_bind.
    destruct (IH (final (tick ctx now w))) as (Hv & Hf & Ht).
    rewrite Hv, Hf, Ht, app_assoc. repeat split.
Qed.

Lemma loop_ticks_selecting (ctx : context) (nows : list Time) :
  forall w, value (loop ctx (map Tick nows) w) = Selecting.
Proof.
  induction nows as [|now nows IH]; intros w; [reflexivity|].
  cbn [map loop]. rewrite value_bind. apply IH.
Qed.

(** A run that has received ticks only is in its loop. *)
Lemma Run_ticks (ctx : context) (out : chan) (nows : list Time) (w : world) :
  let entered := loop ctx (map Tick nows) (final (attach true ctx out w)) in
  value (Run ctx out (map Tick nows) w) = Selecting /\
  final (Run ctx out (map Tick nows) w) = final entered /\
  trace (Run ctx out (map Tick nows) w)
    = (trace (attach true ctx out w) ++ trace entered)%list.
Proof.
  cbv zeta. rewrite trace_Run. unfold Run.
  rewrite !value_bind, !final_bind, loop_ticks_selecting.
  rewrite app_nil_r. repeat split.
Qed.

(** C1: on every tick that the loop of [Run] receives, the merge broadcast
    runs on the controller as the events before left it, the threat broadcast
    on the controller the merge broadcast leaves, and the picture broadcast,
    when it is due, on the controller the threat broadcast leaves; the calls
    they publish are sent in that order, and nothing else happens in the
    tick.  Over a whole run the broadcasts therefore come in such rounds,
    with as many merge broadcasts, and as many threat broadcasts, as ticks
    were taken. *)
Theorem tick_broadcasts_in_order (ctx : context) (out : chan)
  (nows : list Time) (now : Time) (events : list event) (w : world) :
  let before := Run ctx out (map Tick nows) w in
  let after := Run ctx out (map Tick nows ++ [Tick now]) w in
  let c := ctl (final before) in
  let n := uuids (final before) in
  let ctx1 := WithTraceID ctx (shortuuid n) in
  let ctx2 := WithTraceID ctx (shortuuid (S n)) in
  let ctx3 := WithTraceID ctx (shortuuid (S (S n))) in
  let merged := broadcastMerges ctx1 c in
  let threatened := broadcastThreats ctx2 (fst merged) in
  let due := enableAutomaticPicture (fst threatened)
             && After now (pictureBroadcastDeadline (fst threatened)) in
  let pictured := broadcastPicture ctx3 false (fst threatened) in
  let all := invocations (trace (Run ctx out events w)) in
  trace after =
    (trace before
     ++ Invoke Merges ctx1 :: map (Send (calls c)) (snd merged)
     ++ Invoke Threats ctx2 :: map (Send (calls (fst merged))) (snd threatened)
     ++ (if due
         then Invoke Picture ctx3
              :: map (Send (calls (fst threatened))) (snd pictured)
         else []))%list /\
  ctl (final after) = (if due then fst pictured else fst threatened) /\
  uuids (final after) = (if due then 3 + n else 2 + n)%nat /\
  rounds all /\
  count Merges all = ticksBeforeDone events /\
  count Threats all = ticksBeforeDone events.
Proof.
  cbv zeta.
  destruct (Run_ticks ctx out nows w) as (_ & Hfb & Htb).
  assert (Hsnoc : (map Tick nows ++ [Tick now])%list = map Tick (nows ++ [now]))
    by now rewrite map_app.
  destruct (Run_ticks ctx out (nows ++ [now]) w) as (_ & Hfa & Hta).
  rewrite <- Hsnoc in Hfa, Hta.
  destruct (loop_after_ticks ctx nows [Tick now] (final (attach true ctx out w)))
    as (_ & Hf & Ht).
  cbn [loop] in Hf, Ht. rewrite final_bind in Hf. rewrite trace_bind in Ht.
  cbn [ret final trace] in Hf, Ht. rewrite app_nil_r in Ht.
  rewrite Hfa, Hta, Hf, Ht, Hfb, Htb, <- app_assoc.
  destruct (tick_closed ctx now
              (final (loop ctx (map Tick nows) (final (attach true ctx out w)))))
    as (Htr & Hc & Hu).
  rewrite Htr, Hc, Hu.
  split; [reflexivity|]. split; [reflexivity|]. split; [reflexivity|].
  rewrite trace_Run, !invocations_app, invocations_attach.
  replace (invocations match value (loop ctx events (final (attach true ctx out w))) with
                       | Exited => [TickerStop]
                       | Selecting => []
                       end) with (@nil surveillance)
    by (destruct (value _); reflexivity).
  rewrite app_nil_r. cbn [app].
  apply invocations_loop.
Qed.

(** C3, amended: on a tick the picture broadcast is attempted exactly when
    automatic pictures are enabled and the time read is later than the
    deadline, both taken from the controller as the merge and threat
    broadcasts of that tick leave it; at the deadline itself it is not. *)
Theorem picture_attempted_after_deadline (ctx : context) (now : Time) (w : world) :
  let c := afterThreats ctx w in
  pictureAttempted (trace (tick ctx now w)) =
    enableAutomaticPicture c && (pictureBroadcastDeadline c <? now)%Z /\
  pictureAttempted (trace (tick ctx (pictureBroadcastDeadline c) w)) = false.
Proof.
  cbv zeta. unfold pictureAttempted. rewrite !invocations_tick. unfold After.
  rewrite Z.ltb_irrefl, andb_false_r. split; [|reflexivity].
  destruct (enableAutomaticPicture _ && _); reflexivity.
Qed.

(** C4: before the loop is entered, [Run] assigns the channel, sets the
    faded and the removed callback of the scope, and sends the sunrise call,
    with the [Frequency] of each radio frequency of the client in the order
    of the client; once that call is taken it creates a ticker of 15 seconds,
    and what the loop does comes after that.  The started callback is not
    registered: the slot holds what it held before [Run], although the
    cancellation clears it with the other two.  When the sunrise call is not
    taken, [Run] stays in the send: no ticker is created and no event is
    received. *)
Theorem Run_attaches_first (ctx : context) (out : chan) (taken : bool)
  (events : list event) (w : world) :
  let sunrise :=
    NewCall (WithTraceID ctx (shortuuid (uuids w)))
            (SunriseCall (map Frequency (Frequencies (srsClient (ctl w))))) in
  let attached := attach taken ctx out w in
  let entered := loop ctx events (final (attach true ctx out w)) in
  value attached = taken /\
  trace attached =
    ([info "attaching callbacks";
      SetFadedCallback (Some handleFaded);
      SetRemovedCallback (Some handleRemoved)]
     ++ (if taken
         then [Send (Some out) sunrise; NewTicker (15 * Second)%Z]
         else []))%list /\
  sends (trace attached) = (if taken then [sunrise] else []) /\
  (15 * Second)%Z = 15000000000%Z /\
  calls (ctl (final attached)) = Some out /\
  fadedCallback (scope (ctl (final attached))) = Some handleFaded /\
  removedCallback (scope (ctl (final attached))) = Some handleRemoved /\
  startedCallback (scope (ctl (final attached)))
    = startedCallback (scope (ctl w)) /\
  uuids (final attached) = S (uuids w) /\
  trace (Run ctx out events w) =
    (trace (attach true ctx out w) ++ trace entered
     ++ match value entered with
        | Exited => [TickerStop]
        | Selecting => []
        end)%list /\
  value (RunIn ctx out Unreceived w) = None /\
  trace (RunIn ctx out Unreceived w) = trace (attach false ctx out w).
Proof.
  cbv zeta.
  destruct (final_attach taken ctx out w) as (Hc & Hf & Hr & Hs & Hu & Hv).
  assert (Ht : trace (attach taken ctx out w) =
               ([info "attaching callbacks";
                 SetFadedCallback (Some handleFaded);
                 SetRemovedCallback (Some handleRemoved)]
                ++ (if taken
                    then [Send (Some out)
                            (NewCall (WithTraceID ctx (shortuuid (uuids w)))
                               (SunriseCall
                                  (map Frequency (Frequencies (srsClient (ctl w))))));
                          NewTicker (15 * Second)%Z]
                    else []))%list).
  { destruct taken; [apply trace_attach | apply trace_attach_unreceived]. }
  split; [exact Hv|]. split; [exact Ht|].
  split; [rewrite Ht; destruct taken; reflexivity|].
  split; [reflexivity|].
  split; [exact Hc|]. split; [exact Hf|]. split; [exact Hr|].
  split; [exact Hs|]. split; [exact Hu|].
  split; [apply trace_Run|].
  split; [reflexivity|].
  unfold RunIn. rewrite trace_bind. cbn [ret trace]. apply app_nil_r.
Qed.

Lemma loop_ignores_after_Done (ctx : context) (nows : list Time)
  (rest : list event) :
  forall w, loop ctx (map Tick nows ++ Done :: rest) w
            = loop ctx (map Tick nows ++ [Done]) w.
Proof.
  induction nows as [|now nows IH]; intros w; [reflexivity|].
  cbn [map app loop]. unfold bind. now rewrite IH.
Qed.

(** C5: when the loop receives the cancellation it logs, sets the faded, the
    removed and the started callback of the scope to nil, in this order, and
    returns, which stops the ticker.  Nothing else happens from there on: no
    call is sent, the events behind the cancellation change nothing in the
    run, and the three callback slots are empty when [Run] has returned. *)
Theorem Run_detaches_on_cancellation (ctx : context) (out : chan)
  (nows : list Time) (rest : list event) (w : world) :
  let waiting := Run ctx out (map Tick nows) w in
  let stopped := Run ctx out (map Tick nows ++ Done :: rest) w in
  value waiting = Selecting /\
  value stopped = Exited /\
  trace stopped =
    (trace waiting ++
     [info "detaching callbacks"; SetFadedCallback None;
      SetRemovedCallback None; SetStartedCallback None; TickerStop])%list /\
  sends (trace stopped) = sends (trace waiting) /\
  fadedCallback (scope (ctl (final stopped))) = None /\
  removedCallback (scope (ctl (final stopped))) = None /\
  startedCallback (scope (ctl (final stopped))) = None /\
  stopped = Run ctx out (map Tick nows ++ [Done]) w.
Proof.
  cbv zeta.
  destruct (loop_until_Done ctx nows rest (final (attach true ctx out w)))
    as (Hw & Hs & Ht & Hf).
  assert (Hvw : value (Run ctx out (map Tick nows) w) = Selecting).
  { unfold Run. rewrite !value_bind, Hw. reflexivity. }
  assert (Hvs : value (Run ctx out (map Tick nows ++ Done :: rest) w) = Exited).
  { unfold Run. rewrite !value_bind, Hs. reflexivity. }
  assert (Hfs : final (Run ctx out (map Tick nows ++ Done :: rest) w)
                = final (detach (final (loop ctx (map Tick nows)
                                             (final (attach true ctx out w)))))).
  { unfold Run. rewrite !final_bind, Hs. cbn [final bind emit ret]. exact Hf. }
  assert (Hts : trace (Run ctx out (map Tick nows ++ Done :: rest) w) =
                (trace (Run ctx out (map Tick nows) w) ++
                 [info "detaching callbacks"; SetFadedCallback None;
                  SetRemovedCallback None; SetStartedCallback None;
                  TickerStop])%list).
  { rewrite !trace_Run, Hw, Hs, Ht, trace_detach, app_nil_r.
    rewrite <- !app_assoc. reflexivity. }
  split; [exact Hvw|]. split; [exact Hvs|]. split; [exact Hts|].
  split; [rewrite Hts, sends_app; apply app_nil_r|].
  rewrite Hfs. do 3 (split; [reflexivity|]).
  unfold Run, bind. rewrite loop_ignores_after_Done. reflexivity.
Qed.

(** C6: [findCallsign] succeeds exactly when the scope returns a trackfile
    whose last known point is not zero.  Without a trackfile it returns the
    empty callsign, no trackfile and false; with a trackfile it returns the
    callsign the scope found and the trackfile, and whether the last known
    point is not zero.  The controller is left as it was. *)
Theorem findCallsign_result (callsign : string) (w : world) :
  let found := FindCallsign (scope (ctl w)) callsign (coalition (ctl w)) in
  let r := value (findCallsign callsign w) in
  r = match snd found with
      | None => ("", None, false)
      | Some trackfile =>
          (fst found, Some trackfile, negb (IsLastKnownPointZero trackfile))
      end /\
  (snd r = true <->
   exists trackfile,
     snd found = Some trackfile /\ IsLastKnownPointZero trackfile = false) /\
  final (findCallsign callsign w) = w.
Proof.
  cbv zeta. unfold findCallsign.
  rewrite value_bind, final_bind. cbn [getController value final].
  destruct (snd (FindCallsign _ _ _)) as [trackfile|].
  - destruct (IsLastKnownPointZero trackfile) eqn:Hz; cbn.
    + repeat split; try discriminate.
      intros (t & [= <-] & Ht). congruence.
    + repeat split. exists trackfile. split; [reflexivity | exact Hz].
  - cbn. repeat split; try discriminate.
    intros (t & Ht & _). discriminate.
Qed.

End Facts.

Import Samples.

(** C3, as stated, fails at the deadline: with automatic pictures enabled
    and the time read equal to the deadline, the tick makes its merge and
    threat broadcasts and no picture broadcast. *)
Lemma picture_not_attempted_at_deadline :
  let c := sampleController in
  let now := pictureBroadcastDeadline c in
  afterThreats Background sampleWorld = c /\
  enableAutomaticPicture c = true /\
  (pictureBroadcastDeadline c <=? now)%Z = true /\
  invocations (trace (tick Background now sampleWorld)) = [Merges; Threats] /\
  pictureAttempted (trace (tick Background now sampleWorld)) = false.
Proof. vm_compute. repeat split. Qed.

(** One nanosecond later the picture broadcast is attempted. *)
Example picture_attempted_one_nanosecond_later :
  let now := (pictureBroadcastDeadline sampleController + 1)%Z in
  invocations (trace (tick Background now sampleWorld))
    = [Merges; Threats; Picture].
Proof. vm_compute. reflexivity. Qed.

(** A controller made by [New] over a scope without callbacks, run until it
    has taken one tick: the faded and the removed callback are registered, the
    started callback is not, and the sunrise call is the one call sent. *)
Example Run_leaves_started_unregistered :
  let c := New 0 freshScope (srsClient sampleController) true
               true (120 * Second)%Z true (120 * Second)%Z true in
  let r := Run Background 7%nat [Tick (15 * Second)%Z] {| ctl := c; uuids := 0 |} in
  value r = Selecting /\
  calls (ctl (final r)) = Some 7%nat /\
  fadedCallback (scope (ctl (final r))) = Some handleFaded /\
  removedCallback (scope (ctl (final r))) = Some handleRemoved /\
  startedCallback (scope (ctl (final r))) = None /\
  sends (trace r)
    = [NewCall (WithTraceID Background "0")
               (SunriseCall [251000000; 133000000]%Z)].
Proof. vm_compute. repeat split. Qed.

(** The scope of the samples: found with a position, found without one,
    not found. *)
Example findCallsign_samples :
  value (findCallsign "eagle 1" sampleWorld) = ("Eagle 1", Some false, true) /\
  value (findCallsign "eagle 2" sampleWorld) = ("Eagle 2", Some true, false) /\
  value (findCallsign "viper 1" sampleWorld) = ("", None, false).
Proof. vm_compute. repeat split. Qed.

End ControllerFacts.

(* ===================================================================== *)
(** * Byte order and string facts *)
(* ===================================================================== *)

Module Encoding.
Import Go GoFacts.

Lemma u8_range (x : byte) : 0 <= u8 x < 256.
Proof. unfold u8. pose proof (Byte.to_N_bounded x). lia. Qed.

(** A byte shifted to a position inside the word is not cut by the word. *)
Lemma shifted_value (bits : Z) (s : slice) (i : nat) (sh : Z) :
  0 <= sh -> sh + 8 <= bits ->
  shifted bits s i sh = u8 (nth i (elems s) x00) * 2 ^ sh.
Proof.
  intros H0 H1. unfold shifted, wrap. rewrite Z.shiftl_mul_pow2 by lia.
  apply Z.mod_small. pose proof (u8_range (nth i (elems s) x00)) as Hx.
  split; [nia|].
  apply Z.lt_le_trans with (256 * 2 ^ sh); [nia|].
  change 256 with (2 ^ 8). rewrite <- Z.pow_add_r by lia.
  apply Z.pow_le_mono_r; lia.
Qed.

(** Joining a low part and a byte above it by [|] adds them. *)
Lemma lor_above (low x sh : Z) :
  0 <= sh -> 0 <= low < 2 ^ sh -> 0 <= x ->
  Z.lor low (x * 2 ^ sh) = low + x * 2 ^ sh.
Proof.
  intros Hs Hl Hx. rewrite <- Z.add_lor_land.
  enough (Z.land low (x * 2 ^ sh) = 0) by lia.
  apply Z.bits_inj'. intros n Hn. rewrite Z.land_spec, Z.bits_0.
  destruct (Z.lt_ge_cases n sh).
  - rewrite Z.mul_pow2_bits_low by lia. apply andb_false_r.
  - rewrite <- (Z.mod_small low (2 ^ sh)) by lia.
    rewrite Z.mod_pow2_bits_high by lia. reflexivity.
Qed.

(** Replaces the powers of two of closed exponent by their value. *)
Ltac pows :=
  repeat match goal with
  | |- context [2 ^ ?k] =>
      let v := eval vm_compute in (2 ^ k) in change (2 ^ k) with v
  end.

Lemma Uint16_value (s : slice) :
  (2 <= len s)%nat ->
  Uint16 s = Returned (256 * u8 (nth 0 (elems s) x00) + u8 (nth 1 (elems s) x00)).
Proof.
  intros H. unfold Uint16. destruct (index_ok s 1) as [x ->]; [lia|]. cbn [bind].
  rewrite !shifted_value by lia.
  pose proof (u8_range (nth 0 (elems s) x00)).
  pose proof (u8_range (nth 1 (elems s) x00)).
  rewrite lor_above by (pows; lia). f_equal. pows. lia.
Qed.

Lemma Uint32_value (s : slice) :
  (4 <= len s)%nat ->
  Uint32 s = Returned (16777216 * u8 (nth 0 (elems s) x00)
                       + 65536 * u8 (nth 1 (elems s) x00)
                       + 256 * u8 (nth 2 (elems s) x00)
                       + u8 (nth 3 (elems s) x00)).
Proof.
  intros H. unfold Uint32. destruct (index_ok s 3) as [x ->]; [lia|]. cbn [bind].
  rewrite !shifted_value by lia.
  pose proof (u8_range (nth 0 (elems s) x00)).
  pose proof (u8_range (nth 1 (elems s) x00)).
  pose proof (u8_range (nth 2 (elems s) x00)).
  pose proof (u8_range (nth 3 (elems s) x00)).
  rewrite (lor_above (_ * 2 ^ 0)) by (pows; lia).
  rewrite !(lor_above (_ + _)) by (pows; lia). f_equal. pows. lia.
Qed.

Lemma Uint64_value (s : slice) :
  (8 <= len s)%nat ->
  Uint64 s = Returned (fold_left (fun acc k => 256 * acc + u8 (nth k (elems s) x00))
                                 (seq 0 8) 0).
Proof.
  intros H. unfold Uint64. destruct (index_ok s 7) as [x ->]; [lia|]. cbn [bind].
  rewrite !shifted_value by lia.
  pose proof (u8_range (nth 0 (elems s) x00)).
  pose proof (u8_range (nth 1 (elems s) x00)).
  pose proof (u8_range (nth 2 (elems s) x00)).
  pose proof (u8_range (nth 3 (elems s) x00)).
  pose proof (u8_range (nth 4 (elems s) x00)).
  pose proof (u8_range (nth 5 (elems s) x00)).
  pose proof (u8_range (nth 6 (elems s) x00)).
  pose proof (u8_range (nth 7 (elems s) x00)).
  rewrite (lor_above (_ * 2 ^ 0)) by (pows; lia).
  rewrite !(lor_above (_ + _)) by (pows; lia). f_equal. cbn [fold_left seq]. pows. lia.
Qed.

(** The bytes of a window are the bytes of the array it is cut from. *)
Lemma nth_window (s : slice) (low high : Z) (k : nat) :
  0 <= low -> Z.of_nat k < high - low ->
  nth k (elems (window s low high)) x00 = nth (Z.to_nat low + k) (backing s) x00.
Proof.
  intros H0 H1. unfold window. cbn [elems].
  rewrite nth_firstn.
  replace (k <? Z.to_nat (high - low))%nat with true
    by (symmetry; apply Nat.ltb_lt; lia).
  apply nth_skipn.
Qed.

Lemma append_inj (s t u : string) : (s ++ t = s ++ u)%string -> t = u.
Proof. induction s as [|ch s IH]; cbn; intros H; [exact H|]. injection H. exact IH. Qed.

Lemma existsb_eqb_In (x : string) (l : list string) :
  existsb (String.eqb x) l = true <-> In x l.
Proof.
  rewrite existsb_exists. split.
  - intros (y & Hy & E). apply String.eqb_eq in E. now subst.
  - intros H. exists x. split; [exact H | apply String.eqb_refl].
Qed.

Lemma distinct_NoDup (l : list string) : distinct l = true -> NoDup l.
Proof.
  induction l as [|x l IH]; cbn [distinct]; intros H; constructor;
    apply andb_prop in H as [Hx Hl].
  - intros Hin. apply existsb_eqb_In in Hin. rewrite Hin in Hx. discriminate.
  - now apply IH.
Qed.

End Encoding.

(* ===================================================================== *)
(** * The layout of a voice packet *)
(* ===================================================================== *)

Module AudioLayout.
Import Go Audio GoFacts Encoding AudioFacts.

Lemma byteAt_range (b : slice) (k : nat) : 0 <= byteAt b k < 256.
Proof. apply u8_range. Qed.

Lemma byteAt_window (b : slice) (low high : Z) (k : nat) :
  0 <= low -> Z.of_nat k < high - low ->
  u8 (nth k (elems (window b low high)) x00) = byteAt b (Z.to_nat low + k).
Proof. intros H0 H1. unfold byteAt. now rewrite nth_window. Qed.

Lemma Uint16_window (b : slice) (low high : Z) (k : nat) :
  low = Z.of_nat k -> high = low + 2 -> high <= Z.of_nat (cap b) ->
  Uint16 (window b low high) = Returned (256 * byteAt b k + byteAt b (k + 1)).
Proof.
  intros -> -> H. rewrite Uint16_value by (rewrite len_window; lia).
  rewrite !byteAt_window by lia. now rewrite Nat2Z.id, Nat.add_0_r.
Qed.

(** The state in which the loop is entered, in closed form. *)
Lemma loopEntry_value (b : slice) :
  8 <= Z.of_nat (cap b) ->
  loopEntry b =
    Returned
      ({| audioSegmentOffset := 6;
          audioBytesOffset := 8;
          frequenciesOffset := 8;
          fixedSegmentOffset := 8 + (256 * byteAt b 4 + byteAt b 5) |},
       {| PacketLength := 256 * byteAt b 0 + byteAt b 1;
          AudioSegmentLength := 256 * byteAt b 2 + byteAt b 3;
          FrequenciesSegmentLength := 256 * byteAt b 4 + byteAt b 5;
          AudioLength := 256 * byteAt b 6 + byteAt b 7;
          AudioBytes := window b 8 8;
          Frequencies := [];
          UnitID := 0;
          PacketID := 0;
          RetransmissionCount := x00;
          OriginalGUID := nilSlice;
          GUID := nilSlice |}).
Proof.
  intros H. unfold loopEntry, decodeHeaders.
  rewrite (reslice_ok b 0 2), (reslice_ok b 2 4), (reslice_ok b 4 6) by lia.
  cbn [bind].
  rewrite (Uint16_window b 0 2 0), (Uint16_window b 2 4 2),
    (Uint16_window b 4 6 4) by lia.
  cbn [bind]. unfold decodeAudioSegment, computeOffsets.
  cbn [AudioLength FrequenciesSegmentLength audioSegmentOffset audioBytesOffset
       frequenciesOffset].
  change (6 + 2) with 8. change (8 + 0) with 8.
  rewrite (reslice_ok b 6 8), (reslice_ok b 8 8) by lia. cbn [bind].
  rewrite (Uint16_window b 6 8 6) by lia. reflexivity.
Qed.

(** X1: the four 16-bit fields are the big-endian values of bytes 0 to 7. *)
Theorem headers_are_big_endian (b : slice) (o : segmentOffsets) (p : VoicePacket) :
  loopEntry b = Returned (o, p) ->
  PacketLength p = 256 * byteAt b 0 + byteAt b 1 /\
  AudioSegmentLength p = 256 * byteAt b 2 + byteAt b 3 /\
  FrequenciesSegmentLength p = 256 * byteAt b 4 + byteAt b 5 /\
  AudioLength p = 256 * byteAt b 6 + byteAt b 7 /\
  fixedSegmentOffset o = 8 + (256 * byteAt b 4 + byteAt b 5) /\
  0 <= FrequenciesSegmentLength p < 65536.
Proof.
  intros E. pose proof (loopEntry_inv _ _ _ E) as (_ & _ & _ & _ & _ & _ & _ & Hc).
  rewrite (loopEntry_value b Hc) in E. injection E as Ho Hp. subst o p.
  pose proof (byteAt_range b 4). pose proof (byteAt_range b 5).
  repeat match goal with |- _ /\ _ => split end; try reflexivity;
    change (FrequenciesSegmentLength _) with (256 * byteAt b 4 + byteAt b 5); lia.
Qed.

(** Reduces the projections of explicit offsets and packets. *)
Ltac fields :=
  cbv beta iota delta [frequenciesOffset fixedSegmentOffset audioBytesOffset
                       audioSegmentOffset FrequenciesSegmentLength AudioLength
                       PacketLength AudioSegmentLength Frequencies].

Lemma loopEntry_short (b : slice) :
  (cap b < 8)%nat ->
  loopEntry b =
    Panicked (SliceBoundsOutOfRange
                (if (cap b <? 2)%nat then 2
                 else if (cap b <? 4)%nat then 4
                 else if (cap b <? 6)%nat then 6 else 8)
                (cap b)).
Proof.
  intros H. unfold loopEntry, decodeHeaders.
  destruct (Nat.ltb_spec (cap b) 2).
  { rewrite reslice_beyond_cap by lia. reflexivity. }
  rewrite (reslice_ok b 0 2) by lia. cbn [bind].
  destruct (Uint16_ok (window b 0 2)) as [v1 ->]; [rewrite len_window; lia|].
  cbn [bind]. destruct (Nat.ltb_spec (cap b) 4).
  { rewrite reslice_beyond_cap by lia. reflexivity. }
  rewrite (reslice_ok b 2 4) by lia. cbn [bind].
  destruct (Uint16_ok (window b 2 4)) as [v2 ->]; [rewrite len_window; lia|].
  cbn [bind]. destruct (Nat.ltb_spec (cap b) 6).
  { rewrite reslice_beyond_cap by lia. reflexivity. }
  rewrite (reslice_ok b 4 6) by lia. cbn [bind].
  destruct (Uint16_ok (window b 4 6)) as [v3 ->]; [rewrite len_window; lia|].
  cbn [bind]. unfold decodeAudioSegment, computeOffsets. fields.
  change (6 + 2) with 8.
  rewrite reslice_beyond_cap by lia. reflexivity.
Qed.

(** X2: below a capacity of 8 the headers cannot be cut out. *)
Theorem newVoicePacketFrom_short_slice (b : slice) (fuel : nat) :
  (cap b < 8)%nat ->
  newVoicePacketFrom fuel b =
    Panicked (SliceBoundsOutOfRange
                (if (cap b <? 2)%nat then 2
                 else if (cap b <? 4)%nat then 4
                 else if (cap b <? 6)%nat then 6 else 8)
                (cap b)).
Proof.
  intros H. unfold newVoicePacketFrom. rewrite loopEntry_short by assumption.
  reflexivity.
Qed.

Lemma entry_length_nonneg (b : slice) :
  0 <= 256 * byteAt b 4 + byteAt b 5.
Proof. pose proof (byteAt_range b 4). pose proof (byteAt_range b 5). lia. Qed.

Lemma newVoicePacketFrom_long (b : slice) (fuel : nat) :
  18 <= Z.of_nat (len b) -> newVoicePacketFrom fuel b = OutOfFuel.
Proof.
  intros H. pose proof (len_le_cap b).
  unfold newVoicePacketFrom. rewrite loopEntry_value by lia. cbn [bind].
  rewrite frequenciesLoop_spins; [reflexivity| fields; lia | fields; lia |].
  fields. apply entry_length_nonneg.
Qed.

Lemma newVoicePacketFrom_panics (b : slice) (fuel : nat) :
  Z.of_nat (len b) < 18 -> exists e, newVoicePacketFrom (S fuel) b = Panicked e.
Proof.
  intros H. destruct (Z.lt_ge_cases (Z.of_nat (cap b)) 8) as [Hc|Hc].
  - unfold newVoicePacketFrom. rewrite loopEntry_short by lia. cbn [bind]. eauto.
  - unfold newVoicePacketFrom. rewrite loopEntry_value by lia. cbn [bind].
    match goal with
    | |- context [frequenciesLoop (S fuel) b ?o _ ?p] =>
        destruct (frequenciesLoop_panics b o fuel p) as [e He]
    end; [fields; lia | fields; lia | fields; apply entry_length_nonneg |].
    exists e. rewrite He. reflexivity.
Qed.

(** X3: no call of [newVoicePacketFrom] returns a packet, whatever the
    slice.  What a call comes to depends on the length of the slice alone:
    from 18 bytes on it stays in the loop, below it panics. *)
Theorem newVoicePacketFrom_by_size (b : slice) (fuel : nat) :
  (forall q, newVoicePacketFrom fuel b <> Returned q) /\
  (newVoicePacketFrom (S fuel) b = OutOfFuel <-> 18 <= Z.of_nat (len b)) /\
  ((exists e, newVoicePacketFrom (S fuel) b = Panicked e)
     <-> Z.of_nat (len b) < 18).
Proof.
  split; [|split].
  - intros q. destruct (Z.lt_ge_cases (Z.of_nat (len b)) 18) as [H|H].
    + destruct fuel as [|n].
      * destruct (Z.lt_ge_cases (Z.of_nat (cap b)) 8) as [Hc|Hc].
        -- unfold newVoicePacketFrom. rewrite loopEntry_short by lia. discriminate.
        -- unfold newVoicePacketFrom. rewrite loopEntry_value by lia.
           cbn [bind frequenciesLoop].
           rewrite loopCondition_stuck; [discriminate|].
           fields. apply entry_length_nonneg.
      * destruct (newVoicePacketFrom_panics b n H) as [e ->]. discriminate.
    + rewrite newVoicePacketFrom_long by assumption. discriminate.
  - split.
    + intros E. destruct (Z.lt_ge_cases (Z.of_nat (len b)) 18) as [H|H]; [|exact H].
      destruct (newVoicePacketFrom_panics b fuel H) as [e He]. congruence.
    + intros H. now apply newVoicePacketFrom_long.
  - split.
    + intros [e E]. destruct (Z.lt_ge_cases (Z.of_nat (len b)) 18) as [H|H];
        [exact H|].
      rewrite newVoicePacketFrom_long in E by assumption. discriminate.
    + intros H. now apply newVoicePacketFrom_panics.
Qed.

Lemma index_value (s : slice) (i : Z) :
  0 <= i < Z.of_nat (len s) ->
  index s i = Returned (nth (Z.to_nat i) (elems s) x00).
Proof.
  intros H. destruct (index_ok s i H) as [x E]. rewrite E. f_equal.
  unfold index in E.
  destruct ((0 <=? i) && (i <? Z.of_nat (len s))); [|discriminate].
  destruct (nth_error (elems s) (Z.to_nat i)) as [y|] eqn:Ey; [|discriminate].
  injection E as <-. symmetry. now apply nth_error_nth.
Qed.

Lemma byteAt_elems (b : slice) (k : nat) :
  (k < len b)%nat -> byteAt b k = u8 (nth k (elems b) x00).
Proof. intros H. unfold byteAt, backing. now rewrite app_nth1. Qed.

(** X4: a frequency record is ten bytes: a big-endian word of eight bytes, the
    modulation, the encryption. *)
Theorem readFrequency_layout (b : slice) (i : Z) :
  0 <= i ->
  (i + 10 <= Z.of_nat (len b) ->
   readFrequency b i =
     Returned {| Frequency := bigEndian b (Z.to_nat i) 8;
                 Modulation := nth (Z.to_nat i + 8) (elems b) x00;
                 Encryption := nth (Z.to_nat i + 9) (elems b) x00 |}) /\
  (Z.of_nat (len b) < i + 10 -> exists e, readFrequency b i = Panicked e).
Proof.
  intros H0. split; [|now apply readFrequency_short].
  intros H1. pose proof (len_le_cap b). unfold readFrequency.
  rewrite reslice_ok by lia. cbn [bind].
  rewrite Uint64_value by (rewrite len_window; lia). cbn [bind].
  rewrite !index_value by lia. cbn [bind]. unfold Float64frombits.
  replace (Z.to_nat (i + 8)) with (Z.to_nat i + 8)%nat by lia.
  replace (Z.to_nat (i + 9)) with (Z.to_nat i + 9)%nat by lia.
  unfold bigEndian. cbn [fold_left seq]. rewrite !byteAt_window by lia.
  reflexivity.
Qed.

Lemma frequenciesLoop_exit (fuel : nat) (b : slice) (o : segmentOffsets)
  (i : Z) (p : VoicePacket) :
  loopCondition o i p = false -> frequenciesLoop fuel b o i p = Returned p.
Proof. intros H. destruct fuel; cbn [frequenciesLoop]; now rewrite H. Qed.

(** Running the loop is running some rounds and then the loop. *)
Lemma frequenciesLoop_iterations (n m : nat) (b : slice) (o : segmentOffsets)
  (i : Z) :
  forall p,
    frequenciesLoop (n + m) b o i p
      = bind (iterations n b o i p) (fun q => frequenciesLoop m b o i q).
Proof.
  induction n as [|n IH]; intros p; [reflexivity|].
  cbn [Nat.add frequenciesLoop iterations].
  destruct (loopCondition o i p) eqn:Hc.
  - destruct (readFrequency b i) as [f|e|]; cbn [bind]; [apply IH|reflexivity..].
  - cbn [bind]. symmetry. now apply frequenciesLoop_exit.
Qed.

Lemma Frequencies_appended (l : list srsFrequency) :
  forall p, Frequencies (fold_left appendFrequency l p) = (Frequencies p ++ l)%list /\
            FrequenciesSegmentLength (fold_left appendFrequency l p)
              = FrequenciesSegmentLength p.
Proof.
  induction l as [|f l IH]; intros p; cbn [fold_left].
  - now rewrite app_nil_r.
  - destruct (IH (appendFrequency p f)) as [-> ->]. cbn.
    now rewrite <- app_assoc.
Qed.

Lemma iterations_stuck (b : slice) (o : segmentOffsets) (f : srsFrequency) :
  readFrequency b (frequenciesOffset o) = Returned f ->
  forall n p, 0 <= FrequenciesSegmentLength p ->
    iterations n b o (frequenciesOffset o) p
      = Returned (fold_left appendFrequency (repeat f n) p).
Proof.
  intros Hf n. induction n as [|n IH]; intros p Hp; [reflexivity|].
  cbn [iterations repeat fold_left].
  rewrite loopCondition_stuck by assumption. rewrite Hf. cbn [bind].
  apply IH. exact Hp.
Qed.

(** X5: every round of the loop appends the record at offset 8 once more. *)
Theorem loop_repeats_first_record (b : slice) (o : segmentOffsets)
  (p : VoicePacket) :
  loopEntry b = Returned (o, p) ->
  18 <= Z.of_nat (len b) ->
  exists f,
    readFrequency b 8 = Returned f /\
    forall n, exists q,
      iterations n b o (frequenciesOffset o) p = Returned q /\
      Frequencies q = repeat f n /\
      forall m, frequenciesLoop (n + m) b o (frequenciesOffset o) p
                = frequenciesLoop m b o (frequenciesOffset o) q.
Proof.
  intros E H. pose proof (loopEntry_inv _ _ _ E) as (_ & Hfo & _ & Hfsl & Hnil & _).
  destruct (readFrequency_ok b 8) as [f Hf]; [lia..|].
  exists f. split; [exact Hf|]. intros n.
  exists (fold_left appendFrequency (repeat f n) p).
  assert (Hit : iterations n b o (frequenciesOffset o) p
                = Returned (fold_left appendFrequency (repeat f n) p)).
  { apply iterations_stuck; [now rewrite Hfo | exact Hfsl]. }
  split; [exact Hit|]. split.
  - destruct (Frequencies_appended (repeat f n) p) as [-> _]. now rewrite Hnil.
  - intros m. rewrite frequenciesLoop_iterations, Hit. reflexivity.
Qed.

Lemma Uint32_ok (s : slice) : (4 <= len s)%nat -> exists v, Uint32 s = Returned v.
Proof.
  intros H. unfold Uint32. destruct (index_ok s 3) as [x ->]; [lia|].
  cbn [bind]. eauto.
Qed.

Lemma Uint32_at (b : slice) (low : Z) :
  0 <= low -> low + 4 <= Z.of_nat (cap b) ->
  Uint32 (window b low (low + 4)) = Returned (bigEndian b (Z.to_nat low) 4).
Proof.
  intros H0 H1. rewrite Uint32_value by (rewrite len_window; lia).
  rewrite !byteAt_window by lia. f_equal. unfold bigEndian.
  cbn [fold_left seq]. lia.
Qed.

Lemma Uint64_at (b : slice) (low high : Z) :
  0 <= low -> high = low + 8 -> high <= Z.of_nat (cap b) ->
  Uint64 (window b low high) = Returned (bigEndian b (Z.to_nat low) 8).
Proof.
  intros H0 -> H1. rewrite Uint64_value by (rewrite len_window; lia).
  unfold bigEndian. cbn [fold_left seq]. rewrite !byteAt_window by lia.
  reflexivity.
Qed.

(** X6: the fixed segment is 57 bytes: unit ID, packet ID, retransmission
    count and two GUIDs of 22 bytes; the fields decoded before are kept. *)
Theorem decodeFixedSegment_layout (b : slice) (o : segmentOffsets)
  (p : VoicePacket) :
  0 <= fixedSegmentOffset o ->
  let base := fixedSegmentOffset o in
  (base + 57 <= Z.of_nat (len b) ->
   decodeFixedSegment b o p =
     Returned {| PacketLength := PacketLength p;
                 AudioSegmentLength := AudioSegmentLength p;
                 FrequenciesSegmentLength := FrequenciesSegmentLength p;
                 AudioLength := AudioLength p;
                 AudioBytes := AudioBytes p;
                 Frequencies := Frequencies p;
                 UnitID := bigEndian b (Z.to_nat base) 4;
                 PacketID := bigEndian b (Z.to_nat base + 4) 8;
                 RetransmissionCount := nth (Z.to_nat base + 12) (elems b) x00;
                 OriginalGUID := window b (base + 13) (base + 35);
                 GUID := window b (base + 35) (base + 57) |} /\
   len (window b (base + 13) (base + 35)) = 22%nat /\
   len (window b (base + 35) (base + 57)) = 22%nat) /\
  (Z.of_nat (cap b) < base + 57 ->
   exists e, decodeFixedSegment b o p = Panicked e).
Proof.
  intros H0 base. split.
  - intros H. pose proof (len_le_cap b). split.
    + unfold decodeFixedSegment. fold base.
      replace (base + 4 + 8) with (base + 12) by lia.
      replace (base + 12 + 1) with (base + 13) by lia.
      replace (base + 13 + 22) with (base + 35) by lia.
      replace (base + 35 + 22) with (base + 57) by lia.
      rewrite !reslice_ok by lia. cbn [bind].
      rewrite Uint32_at by lia. cbn [bind].
      rewrite (Uint64_at b (base + 4) (base + 12)) by lia. cbn [bind].
      rewrite index_value by lia. cbn [bind].
      replace (Z.to_nat (base + 4)) with (Z.to_nat base + 4)%nat by lia.
      replace (Z.to_nat (base + 12)) with (Z.to_nat base + 12)%nat by lia.
      reflexivity.
    + rewrite !len_window by lia. split; lia.
  - intros H. unfold decodeFixedSegment. fold base.
    replace (base + 4 + 8) with (base + 12) by lia.
    replace (base + 12 + 1) with (base + 13) by lia.
    replace (base + 13 + 22) with (base + 35) by lia.
    replace (base + 35 + 22) with (base + 57) by lia.
    destruct (Z.lt_ge_cases (Z.of_nat (cap b)) (base + 4)).
    { rewrite reslice_beyond_cap by lia. cbn [bind]. eauto. }
    rewrite (reslice_ok b base) by lia. cbn [bind].
    rewrite Uint32_at by lia. cbn [bind].
    destruct (Z.lt_ge_cases (Z.of_nat (cap b)) (base + 12)).
    { rewrite reslice_beyond_cap by lia. cbn [bind]. eauto. }
    rewrite (reslice_ok b (base + 4)) by lia. cbn [bind].
    rewrite (Uint64_at b (base + 4) (base + 12)) by lia. cbn [bind].
    destruct (Z.le_gt_cases (Z.of_nat (len b)) (base + 12)).
    { rewrite index_beyond_len by lia. cbn [bind]. eauto. }
    rewrite index_value by lia. cbn [bind].
    destruct (Z.lt_ge_cases (Z.of_nat (cap b)) (base + 35)).
    { rewrite reslice_beyond_cap by lia. cbn [bind]. eauto. }
    rewrite (reslice_ok b (base + 13)) by lia. cbn [bind].
    rewrite reslice_beyond_cap by lia. cbn [bind]. eauto.
Qed.

(** X1 on the packet with audio. *)
Lemma headers_are_big_endian_withAudio :
  exists o p,
    loopEntry Samples.withAudio = Returned (o, p) /\
    PacketLength p = 20 /\ AudioSegmentLength p = 4 /\
    FrequenciesSegmentLength p = 10 /\ AudioLength p = 2 /\
    fixedSegmentOffset o = 18.
Proof.
  destruct (loopEntry Samples.withAudio) as [[o p]| |] eqn:E;
    try (vm_compute in E; discriminate).
  exists o, p. split; [reflexivity|].
  destruct (headers_are_big_endian Samples.withAudio o p E)
    as (H1 & H2 & H3 & H4 & H5 & _).
  rewrite H1, H2, H3, H4, H5. vm_compute. repeat split.
Defined.

(** X2 on a slice of three bytes: the second header is out of range. *)
Lemma newVoicePacketFrom_short_slice_three_bytes :
  newVoicePacketFrom 5 (ofBytes [x00; x08; x00])
    = Panicked (SliceBoundsOutOfRange 4 3).
Proof.
  apply (newVoicePacketFrom_short_slice (ofBytes [x00; x08; x00]) 5).
  cbn. lia.
Defined.

(** X4 on the packet with audio: the record read at offset 8 starts with the
    two bytes of audio. *)
Lemma readFrequency_layout_withAudio :
  readFrequency Samples.withAudio 8 =
    Returned {| Frequency := 12302499021607305216;
                Modulation := x00;
                Encryption := x00 |}.
Proof.
  assert (H0 : 0 <= 8) by lia.
  destruct (readFrequency_layout Samples.withAudio 8 H0) as [Hread _].
  rewrite Hread by (cbn; lia). vm_compute. reflexivity.
Defined.

(** X5 on the packet with audio. *)
Lemma loop_repeats_first_record_withAudio :
  exists o p f,
    loopEntry Samples.withAudio = Returned (o, p) /\
    readFrequency Samples.withAudio 8 = Returned f /\
    forall n, exists q,
      iterations n Samples.withAudio o (frequenciesOffset o) p = Returned q /\
      Frequencies q = repeat f n.
Proof.
  destruct (loopEntry Samples.withAudio) as [[o p]| |] eqn:E;
    try (vm_compute in E; discriminate).
  assert (H : 18 <= Z.of_nat (len Samples.withAudio)) by (cbn; lia).
  destruct (loop_repeats_first_record Samples.withAudio o p E H)
    as (f & Hf & Hn).
  exists o, p, f. split; [reflexivity|]. split; [exact Hf|].
  intros n. destruct (Hn n) as (q & Hq & Hfs & _). exists q. now split.
Defined.

(** X6 on the packet that has a fixed segment only. *)
Lemma decodeFixedSegment_layout_fixedOnly :
  exists o p q,
    loopEntry Samples.fixedOnly = Returned (o, p) /\
    decodeFixedSegment Samples.fixedOnly o p = Returned q /\
    UnitID q = 258 /\ PacketID q = 42 /\ RetransmissionCount q = x03 /\
    elems (OriginalGUID q) = repeat "a"%byte 22 /\
    elems (GUID q) = repeat "b"%byte 22.
Proof.
  destruct (loopEntry Samples.fixedOnly) as [[o p]| |] eqn:E;
    try (vm_compute in E; discriminate).
  assert (Ho : fixedSegmentOffset o = 8)
    by (vm_compute in E; injection E as <- _; reflexivity).
  assert (H0 : 0 <= fixedSegmentOffset o) by (rewrite Ho; lia).
  destruct (decodeFixedSegment_layout Samples.fixedOnly o p H0) as [Hlayout _].
  destruct Hlayout as (Hq & _); [rewrite Ho; cbn; lia|].
  eexists o, p, _. split; [reflexivity|]. split; [exact Hq|].
  rewrite Ho. vm_compute. repeat split.
Defined.

End AudioLayout.

(* ===================================================================== *)
(** * The variants of the negative contact reply *)
(* ===================================================================== *)

Module ComposerVariants.
Import Go Zerolog Composer GoFacts Encoding.
Local Open Scope string_scope.

Section Facts.
Context {L : Library} {C : Methods}.

(** What a template of [replies] leaves behind the callsign. *)
Lemma reply_text (template callsigns : string) :
  In template replies ->
  Sprintf template [Str callsigns]
    = callsigns ++ substring 2 (String.length template - 2) template.
Proof.
  intros H. cbn in H.
  repeat (destruct H as [<-|H]; [reflexivity|]). contradiction.
Qed.

Lemma reply_tails_distinct :
  NoDup (map (fun t => substring 2 (String.length t - 2) t) replies).
Proof. apply distinct_NoDup. vm_compute. reflexivity. Qed.

(** X7: two different draws give two different texts; a draw outside the
    table is an index out of range. *)
Theorem negative_contact_variants_differ (c : composer)
  (response : NegativeRadarContactResponse) (draw draw' : nat) :
  (draw < 13)%nat -> (draw' < 13)%nat -> draw <> draw' ->
  (exists r r',
     ComposeNegativeRadarContactResponse c draw response = Returned r /\
     ComposeNegativeRadarContactResponse c draw' response = Returned r' /\
     Speech r <> Speech r' /\ Subtitle r <> Subtitle r') /\
  forall outside, (13 <= outside)%nat ->
    ComposeNegativeRadarContactResponse c outside response
      = Panicked (IndexOutOfRange (Z.of_nat outside) 13).
Proof.
  intros H H' Hne. split.
  - unfold ComposeNegativeRadarContactResponse.
    destruct (nth_error replies draw) as [t|] eqn:Et;
      [|apply nth_error_None in Et; cbn in Et; lia].
    destruct (nth_error replies draw') as [t'|] eqn:Et';
      [|apply nth_error_None in Et'; cbn in Et'; lia].
    do 2 eexists. split; [reflexivity|]. split; [reflexivity|].
    cbn [Speech Subtitle].
    rewrite (reply_text t) by (eapply nth_error_In; exact Et).
    rewrite (reply_text t') by (eapply nth_error_In; exact Et').
    assert (Hd : substring 2 (String.length t - 2) t
                 <> substring 2 (String.length t' - 2) t').
    { intros E. apply Hne.
      pose proof reply_tails_distinct as Hnd.
      rewrite NoDup_nth_error in Hnd. apply Hnd.
      - rewrite length_map. exact H.
      - rewrite !nth_error_map, Et, Et'. cbn. now rewrite E. }
    split; intros E; apply Hd; eapply append_inj; exact E.
  - intros outside Ho. unfold ComposeNegativeRadarContactResponse.
    replace (nth_error replies outside) with (@None string); [reflexivity|].
    symmetry. apply nth_error_None. exact Ho.
Qed.

End Facts.

Import Samples.

(** X7 on the first and the last template. *)
Lemma negative_contact_variants_differ_first_last :
  exists r r',
    ComposeNegativeRadarContactResponse skyeye 0 negativeContact = Returned r /\
    ComposeNegativeRadarContactResponse skyeye 12 negativeContact = Returned r' /\
    Speech r <> Speech r'.
Proof.
  assert (H0 : (0 < 13)%nat) by lia.
  assert (H12 : (12 < 13)%nat) by lia.
  assert (Hne : 0%nat <> 12%nat) by discriminate.
  destruct (negative_contact_variants_differ skyeye negativeContact 0 12
              H0 H12 Hne) as [(r & r' & H1 & H2 & H3 & _) _].
  exists r, r'. repeat split; assumption.
Defined.

End ComposerVariants.

(* ===================================================================== *)
(** * Runs of the controller *)
(* ===================================================================== *)

Module ControllerRuns.
Import Zerolog Controller ControllerFacts.
Local Open Scope string_scope.

Section Facts.
Context {L : Externals} {B : Broadcasts} {T : Trackers}.





(** X11: [findCallsign] writes one log line: at debug level when it succeeds,
    at info level when it does not, with the callsign asked for first, and
    the callsign found when there is a trackfile. *)
Theorem findCallsign_logs_once (callsign : string) (w : world) :
  let found := FindCallsign (scope (ctl w)) callsign (coalition (ctl w)) in
  let r := findCallsign callsign w in
  exists e,
    trace r = [Log e] /\
    logLevel e = (if snd (value r) then DebugLevel else InfoLevel) /\
    logFields e =
      (("parsedCallsign", callsign) ::
       match snd found with
       | None => []
       | Some _ => [("foundCallsign", fst found)]
       end).
Proof.
  cbv zeta. unfold findCallsign.
  rewrite value_bind, trace_bind. cbn [getController value final trace app].
  destruct (snd (FindCallsign _ _ _)) as [trackfile|].
  - destruct (IsLastKnownPointZero trackfile); eexists; repeat split.
  - eexists; repeat split.
Qed.

Lemma sends_invoke_quiet (a : surveillance) (ctx : context)
  (f : controller -> controller * list Call) (w : world) :
  snd (f (ctl w)) = [] -> sends (trace (invoke a ctx f w)) = [].
Proof. intros H. unfold invoke. cbn [trace]. rewrite H. reflexivity. Qed.

Section Quiet.

Hypothesis merges_quiet : forall ctx c, snd (broadcastMerges ctx c) = [].
Hypothesis threats_quiet : forall ctx c, snd (broadcastThreats ctx c) = [].
Hypothesis picture_quiet :
  forall ctx force c, snd (broadcastPicture ctx force c) = [].

Lemma sends_tick_quiet (ctx : context) (now : Time) (w : world) :
  sends (trace (tick ctx now w)) = [].
Proof.
  unfold tick. rewrite !trace_bind, !sends_app.
  rewrite !sends_invoke_quiet by auto.
  cbn [bind trace value final newUUID invoke getController ctl uuids
       sends flat_map app fst].
  destruct (enableAutomaticPicture _ && After now _); [|reflexivity].
  rewrite trace_bind, sends_app, sends_invoke_quiet by auto. reflexivity.
Qed.

Lemma sends_loop_quiet (ctx : context) (events : list event) :
  forall w, sends (trace (loop ctx events w)) = [].
Proof.
  induction events as [|[|now] events IH]; intros w; [reflexivity..|].
  cbn [loop]. rewrite trace_bind, sends_app, sends_tick_quiet, IH. reflexivity.
Qed.

(** X12: of its own, [Run] sends the sunrise call and nothing else: when the
    broadcasts publish nothing, the sunrise call is the only call sent,
    however many ticks are taken and whether the run is cancelled or not. *)
Theorem Run_sends_sunrise_only (ctx : context) (out : chan)
  (events : list event) (w : world) :
  sends (trace (Run ctx out events w))
    = [NewCall (WithTraceID ctx (shortuuid (uuids w)))
               (SunriseCall (map Frequency (Frequencies (srsClient (ctl w)))))].
Proof.
  rewrite trace_Run, !sends_app, sends_loop_quiet, trace_attach.
  destruct (value (loop ctx events (final (attach true ctx out w)))); reflexivity.
Qed.

End Quiet.

Section Schedule.

Hypothesis merges_keep_deadline :
  forall ctx c, pictureBroadcastDeadline (fst (broadcastMerges ctx c))
                = pictureBroadcastDeadline c.
Hypothesis threats_keep_deadline :
  forall ctx c, pictureBroadcastDeadline (fst (broadcastThreats ctx c))
                = pictureBroadcastDeadline c.

Lemma tick_before_deadline (ctx : context) (now : Time) (w : world) :
  now <= pictureBroadcastDeadline (ctl w) ->
  invocations (trace (tick ctx now w)) = [Merges; Threats] /\
  pictureBroadcastDeadline (ctl (final (tick ctx now w)))
    = pictureBroadcastDeadline (ctl w).
Proof.
  intros H.
  assert (Hd : pictureBroadcastDeadline (afterThreats ctx w)
               = pictureBroadcastDeadline (ctl w)).
  { unfold afterThreats. now rewrite threats_keep_deadline, merges_keep_deadline. }
  assert (Hc : enableAutomaticPicture (afterThreats ctx w)
               && After now (pictureBroadcastDeadline (afterThreats ctx w)) = false).
  { rewrite Hd. unfold After.
    replace (pictureBroadcastDeadline (ctl w) <? now)%Z with false
      by (symmetry; apply Z.ltb_ge; lia).
    apply andb_false_r. }
  split.
  - rewrite invocations_tick, Hc. reflexivity.
  - unfold tick. rewrite !final_bind.
    cbn [bind trace value final newUUID invoke getController ctl uuids fst].
    fold (afterThreats ctx w). rewrite Hc. cbn [ret final ctl]. exact Hd.
Qed.

Lemma loop_before_deadline (ctx : context) (nows : list Time) :
  forall w,
    Forall (fun now => now <= pictureBroadcastDeadline (ctl w)) nows ->
    invocations (trace (loop ctx (map Tick nows) w))
      = flat_map (fun _ => [Merges; Threats]) nows.
Proof.
  induction nows as [|now nows IH]; intros w H; [reflexivity|].
  inversion H as [|? ? Hnow Hrest]; subst.
  cbn [map loop flat_map]. rewrite trace_bind, invocations_app.
  destruct (tick_before_deadline ctx now w Hnow) as [-> Hd].
  rewrite IH; [reflexivity|]. now rewrite Hd.
Qed.

(** X13: a controller made by [New] at some instant, and run, attempts no
    automatic picture on a tick that comes one interval after that instant
    or earlier, provided the merge and threat broadcasts leave the deadline
    alone. *)
Theorem no_picture_within_first_interval (ctx : context) (out : chan)
  (created : Time) (rdr : Radar) (srs : Client) (side : Coalition)
  (enablePicture : bool) (interval : Duration) (enableThreat : bool)
  (cooldown : Duration) (requiresSRS : bool) (drawn : nat) (nows : list Time) :
  Forall (fun now => now <= created + interval) nows ->
  let c := New created rdr srs side enablePicture interval enableThreat
               cooldown requiresSRS in
  invocations (trace (Run ctx out (map Tick nows) {| ctl := c; uuids := drawn |}))
    = flat_map (fun _ => [Merges; Threats]) nows.
Proof.
  intros H c. rewrite trace_Run, !invocations_app, invocations_attach.
  rewrite loop_before_deadline by exact H.
  destruct (value (loop ctx (map Tick nows) _)); cbn; now rewrite app_nil_r.
Qed.

End Schedule.

End Facts.

Import Samples.

(** X12 on the samples, whose broadcasts publish nothing. *)
Lemma Run_sends_sunrise_only_quiet :
  sends (trace (Run Background 7%nat [Tick 1; Tick 2; Done] sampleWorld))
    = [NewCall (WithTraceID Background "0")
               (SunriseCall [251000000; 133000000]%Z)].
Proof.
  apply (Run_sends_sunrise_only (L := controllerExternals) (B := quiet)
           (fun _ _ => eq_refl) (fun _ _ => eq_refl) (fun _ _ _ => eq_refl)
           Background 7%nat [Tick 1; Tick 2; Done] sampleWorld).
Defined.

(** X13 on a controller created at 0 with an interval of 60: ticks at 10, 50
    and 60 bring no picture. *)
Lemma no_picture_within_first_interval_sample :
  invocations
    (trace (Run Background 7%nat (map Tick [10; 50; 60]%Z)
                {| ctl := New 0 sampleScope {| Frequencies := [] |} true
                              true 60 true 120 true;
                   uuids := 0 |}))
    = [Merges; Threats; Merges; Threats; Merges; Threats].
Proof.
  apply (no_picture_within_first_interval
           (L := controllerExternals) (B := quiet) (T := sampleTrackers)
           (fun _ _ => eq_refl) (fun _ _ => eq_refl)
           Background 7%nat 0 sampleScope {| Frequencies := [] |} true
           true 60 true 120 true 0%nat [10; 50; 60]%Z).
  repeat constructor; lia.
Defined.

End ControllerRuns.

(* ===================================================================== *)
(** * Properties of the alternate request words *)
(* ===================================================================== *)

Module ParserFacts.
Import Go Parser Encoding.
Local Open Scope string_scope.

Section Facts.
Context {W : RequestWords}.

Lemma lookup_In (m : list (string * string)) (key v : string) :
  lookup m key = Some v -> In (key, v) m.
Proof.
  induction m as [|[k x] m IH]; cbn [lookup]; [discriminate|].
  destruct (String.eqb_spec key k) as [->|Hne].
  - intros [= ->]. now left.
  - intros H. right. now apply IH.
Qed.

Lemma In_lookup (m : list (string * string)) (key v : string) :
  NoDup (map fst m) -> In (key, v) m -> lookup m key = Some v.
Proof.
  induction m as [|[k x] m IH]; cbn [lookup map fst]; intros Hnd H; [contradiction|].
  inversion Hnd as [|? ? Hk Hm]; subst.
  destruct H as [[= -> ->]|H].
  - now rewrite String.eqb_refl.
  - destruct (String.eqb_spec key k) as [->|Hne]; [|now apply IH].
    exfalso. apply Hk. apply in_map_iff. exists (k, v). now split.
Qed.

Lemma keys_distinct : NoDup (map fst alternateRequestWords).
Proof. apply distinct_NoDup. vm_compute. reflexivity. Qed.

(** X14: the table binds 86 alternates, no one twice, so that looking a word up
    finds a request word exactly when the table has the pair, wherever in the
    table it is written. *)
Theorem alternates_form_a_map (key v : string) :
  List.length alternateRequestWords = 86%nat /\
  NoDup (map fst alternateRequestWords) /\
  (lookup alternateRequestWords key = Some v
     <-> In (key, v) alternateRequestWords).
Proof.
  split; [reflexivity|]. split; [exact keys_distinct|]. split.
  - apply lookup_In.
  - apply In_lookup. exact keys_distinct.
Qed.

Lemma keys_plain : forallb allPlain (map fst alternateRequestWords) = true.
Proof. vm_compute. reflexivity. Qed.

(** X15: every alternate is written in lower case letters, spaces and
    hyphens, is not empty, and maps to one of seven request words; a word
    with any other character in it is not found. *)
Theorem alternates_are_plain (key : string) :
  (forall v, lookup alternateRequestWords key = Some v ->
     allPlain key = true /\ key <> "" /\
     In v [alphaCheck; bogeyDope; checkIn; declare; radioCheck; snaplock;
           tripwire]) /\
  (allPlain key = false -> lookup alternateRequestWords key = None).
Proof.
  assert (Hfound : forall v, lookup alternateRequestWords key = Some v ->
            allPlain key = true /\ key <> "" /\
            In v [alphaCheck; bogeyDope; checkIn; declare; radioCheck;
                  snaplock; tripwire]).
  { intros v H. apply lookup_In in H.
    assert (Hk : In key (map fst alternateRequestWords))
      by (apply in_map_iff; exists (key, v); now split).
    split; [|split].
    - pose proof keys_plain as Hp. rewrite forallb_forall in Hp. now apply Hp.
    - intros ->. revert Hk. 
      assert (Hn : existsb (String.eqb "") (map fst alternateRequestWords) = false)
        by (vm_compute; reflexivity).
      intros Hk. apply existsb_eqb_In in Hk. congruence.
    - assert (Hv : Forall (fun kv => In (snd kv)
                     [alphaCheck; bogeyDope; checkIn; declare; radioCheck;
                      snaplock; tripwire]) alternateRequestWords).
      { unfold alternateRequestWords.
        repeat (constructor; [cbn; tauto|]). constructor. }
      rewrite Forall_forall in Hv. exact (Hv _ H). }
  split; [exact Hfound|].
  intros Hp. destruct (lookup alternateRequestWords key) as [v|] eqn:E;
    [|reflexivity].
  destruct (Hfound v eq_refl) as [Hq _]. congruence.
Qed.

End Facts.
End ParserFacts.
